(** * Turing Patterns Explorer: the reaction-diffusion engine

    A shallow embedding of [class TuringSimulation] of
    [src/julia-explorer/main.js]: the three fragment shaders
    ([simulationSource], [renderSource], [brushSource]), the ping-pong
    texture pair, [simulate], [render], [applyBrush], [applyStamp],
    [handleCanvasInteraction], [updateJourney], [animateToParams], the
    slider callbacks, [togglePause] and [seedPattern].

    Numbers.  JavaScript numbers and GLSL [highp float]s are idealised as
    exact rationals [Q]; computed values are compared with [==].  The
    transcendental builtins the code calls ([sqrt] inside GLSL [distance],
    [Math.sin], [Math.cos]) have no exact rational value and are taken as
    parameters of the sections that use them; [sqrt_fx] is an executable
    instance of the square root, exact on squares of small dyadic numbers.
    The 8-bit quantisation of the [RGBA/UNSIGNED_BYTE] textures is not
    modelled: a buffer holds the value the shader writes.

    Textures.  A texture is the row-major list of its [resolution *
    resolution] texels.  Every pass draws a full-screen quad into a viewport
    of the texture's size, so one fragment is shaded per texel, at the
    texel's centre; [texture2D] with [REPEAT] wrapping then addresses whole
    texels (with [LINEAR] filtering a sample at a texel centre is that
    texel). *)

From Stdlib Require Import QArith Qminmax Qround Qabs ZArith List Bool Lia Lqa.
From Stdlib Require Import Morphisms Setoid Sorted.
Import ListNotations.

Local Open Scope Z_scope.
Local Open Scope Q_scope.

(** ** GLSL values and builtins *)

Module GLSL.

Record vec2 := Vec2 { vx : Q; vy : Q }.
Record vec3 := Vec3 { c1 : Q; c2 : Q; c3 : Q }.
Record vec4 := Vec4 { cr : Q; cg : Q; cb : Q; ca : Q }.

Definition vec2_add (p q : vec2) : vec2 := Vec2 (vx p + vx q) (vy p + vy q).
Definition vec2_mul (p q : vec2) : vec2 := Vec2 (vx p * vx q) (vy p * vy q).
Definition vec2_inv (p : vec2) : vec2 := Vec2 (1 / vx p) (1 / vy p).

Definition vec4_add (p q : vec4) : vec4 :=
  Vec4 (cr p + cr q) (cg p + cg q) (cb p + cb q) (ca p + ca q).
Definition vec4_sub (p q : vec4) : vec4 :=
  Vec4 (cr p - cr q) (cg p - cg q) (cb p - cb q) (ca p - ca q).
Definition vec4_scale (p : vec4) (k : Q) : vec4 :=
  Vec4 (cr p * k) (cg p * k) (cb p * k) (ca p * k).

(** [clamp(x, minVal, maxVal) = min(max(x, minVal), maxVal)]. *)
Definition clamp (x minVal maxVal : Q) : Q := Qmin (Qmax x minVal) maxVal.

(** [mix(x, y, a) = x*(1-a) + y*a], componentwise on [vec3]. *)
Definition mix (x y a : Q) : Q := x * (1 - a) + y * a.
Definition mix3 (x y : vec3) (a : Q) : vec3 :=
  Vec3 (mix (c1 x) (c1 y) a) (mix (c2 x) (c2 y) a) (mix (c3 x) (c3 y) a).

(** [current.g = v]. *)
Definition set_g (p : vec4) (v : Q) : vec4 := Vec4 (cr p) v (cb p) (ca p).

Definition texture := list vec4.

Definition texel_default : vec4 := Vec4 0 0 0 0.

(** The texel of column [x], row [y], wrapped in both axes
    ([TEXTURE_WRAP_S = TEXTURE_WRAP_T = REPEAT]). *)
Definition texel (res : Z) (tex : texture) (x y : Z) : vec4 :=
  nth (Z.to_nat ((y mod res) * res + x mod res)) tex texel_default.

(** [texture2D(tex, coord)]: normalised coordinates select the texel
    [floor(coord * size)]. *)
Definition texture2D (res : Z) (tex : texture) (coord : vec2) : vec4 :=
  texel res tex (Qfloor (vx coord * inject_Z res)) (Qfloor (vy coord * inject_Z res)).

(** The varying [v_texCoord = a_position * 0.5 + 0.5] as interpolated at the
    centre of pixel [(x, y)] of a [res * res] viewport. *)
Definition v_texCoord_at (res : Z) (x y : Z) : vec2 :=
  Vec2 ((inject_Z x + 0.5) / inject_Z res) ((inject_Z y + 0.5) / inject_Z res).

(** [gl.drawArrays(gl.TRIANGLE_STRIP, 0, 4)] over the full-screen quad with
    [gl.viewport(0, 0, res, res)]: the fragment shader [main] runs once per
    pixel and its [gl_FragColor] becomes the pixel of the render target. *)
Definition drawArrays (res : Z) (main : vec2 -> vec4) : texture :=
  map (fun k => main (v_texCoord_at res (Z.of_nat k mod res) (Z.of_nat k / res)))
      (seq 0 (Z.to_nat (res * res))).

End GLSL.
Import GLSL.

(** ** The shaders of [createShaders] *)

Record SimUniforms := {
  u_resolution : vec2;
  u_feed : Q;
  u_kill : Q;
  u_diffusionA : Q;
  u_diffusionB : Q;
  u_dt : Q;
  u_system : Z
}.

(** [simulationSource]: [main()] at one fragment. *)
Definition simulation_main (res : Z) (u_state : texture) (U : SimUniforms)
    (v_texCoord : vec2) : vec4 :=
  let texel := vec2_inv (u_resolution U) in
  (* Sample neighbors for Laplacian *)
  let center := texture2D res u_state v_texCoord in
  let left := texture2D res u_state (vec2_add v_texCoord (Vec2 (- vx texel) 0)) in
  let right := texture2D res u_state (vec2_add v_texCoord (Vec2 (vx texel) 0)) in
  let up := texture2D res u_state (vec2_add v_texCoord (Vec2 0 (vy texel))) in
  let down := texture2D res u_state (vec2_add v_texCoord (Vec2 0 (- vy texel))) in
  (* Diagonal neighbors for better Laplacian *)
  let ul := texture2D res u_state (vec2_add v_texCoord (Vec2 (- vx texel) (vy texel))) in
  let ur := texture2D res u_state (vec2_add v_texCoord (Vec2 (vx texel) (vy texel))) in
  let dl := texture2D res u_state (vec2_add v_texCoord (Vec2 (- vx texel) (- vy texel))) in
  let dr := texture2D res u_state (vec2_add v_texCoord (Vec2 (vx texel) (- vy texel))) in
  (* 9-point Laplacian stencil *)
  let laplacian :=
    vec4_sub
      (vec4_add (vec4_scale (vec4_add (vec4_add (vec4_add left right) up) down) 0.2)
                (vec4_scale (vec4_add (vec4_add (vec4_add ul ur) dl) dr) 0.05))
      center in
  let a := cr center in
  let b := cg center in
  let lapA := cr laplacian in
  let lapB := cg laplacian in
  (* Gray-Scott model *)
  let reaction := a * b * b in
  let newA := a + (u_diffusionA U * lapA - reaction + u_feed U * (1 - a)) * u_dt U in
  let newB := b + (u_diffusionB U * lapB + reaction - (u_kill U + u_feed U) * b) * u_dt U in
  (* Clamp values *)
  let newA := clamp newA 0 1 in
  let newB := clamp newB 0 1 in
  Vec4 newA newB 0 1.

Record RenderUniforms := {
  u_color1 : vec3;
  u_color2 : vec3;
  u_contrast : Q;
  u_brightness : Q
}.

(** [renderSource]: [main()] at one fragment. *)
Definition render_main (res : Z) (u_state : texture) (U : RenderUniforms)
    (v_texCoord : vec2) : vec4 :=
  let state := texture2D res u_state v_texCoord in
  let value := cg state in (* Chemical B concentration *)
  (* Apply contrast and brightness *)
  let value := (value - 0.5) * u_contrast U + 0.5 in
  let value := value * u_brightness U in
  let value := clamp value 0 1 in
  (* Interpolate colors *)
  let color := mix3 (u_color1 U) (u_color2 U) value in
  Vec4 (c1 color) (c2 color) (c3 color) 1.

Record BrushUniforms := {
  ub_resolution : vec2;
  u_brushPos : vec2;
  u_brushSize : Q;
  u_brushStrength : Q;
  u_chemical : Z
}.

Section Brush.

(** The square root inside GLSL [distance]. *)
Variable sqrt : Q -> Q.

(** [distance(p0, p1) = length(p0 - p1)]: the plain Euclidean distance. *)
Definition distance (p0 p1 : vec2) : Q :=
  sqrt ((vx p0 - vx p1) * (vx p0 - vx p1) + (vy p0 - vy p1) * (vy p0 - vy p1)).

(** The amount the brush adds or removes at distance [dist]:
    [falloff = 1.0 - dist / u_brushSize; falloff = falloff * falloff *
    u_brushStrength]. *)
Definition brush_falloff (U : BrushUniforms) (dist : Q) : Q :=
  let falloff := 1 - dist / u_brushSize U in
  falloff * falloff * u_brushStrength U.

(** [brushSource]: [main()] at one fragment. *)
Definition brush_main (res : Z) (u_state : texture) (U : BrushUniforms)
    (v_texCoord : vec2) : vec4 :=
  let current := texture2D res u_state v_texCoord in
  let pos := vec2_mul v_texCoord (ub_resolution U) in
  let dist := distance pos (u_brushPos U) in
  if Qlt_le_dec dist (u_brushSize U) then
    let falloff := brush_falloff U dist in
    if (u_chemical U =? 0)%Z then
      (* Chemical A (inhibitor) - usually means erasing B *)
      set_g current (Qmax 0 (cg current - falloff))
    else
      (* Chemical B (activator) *)
      set_g current (Qmin 1 (cg current + falloff))
  else current.

End Brush.

(** ** The state of [class TuringSimulation] *)

(** The strings the page's controls hold, as enumerations: [params.system]
    (['gray-scott'], ['brusselator'], ['schnakenberg']), [visual.colorScheme],
    [tool.type], [tool.chemical] and [journey.type]. *)
Inductive System := GrayScott | Brusselator | Schnakenberg.
Inductive ColorScheme := Classic | Thermal | Ocean | Forest | Sunset | Neon.
Inductive ToolType := Brush | Eraser | Stamp.
Inductive Chemical := ChemA | ChemB.
Inductive JourneyType := JNone | JLinear | JCircular | JFigure8 | JRandom.

(** [this.params] *)
Record Params := {
  feedRate : Q;
  killRate : Q;
  diffusionA : Q;
  diffusionB : Q;
  simSpeed : Q;
  system : System
}.

(** [this.visual] *)
Record Visual := {
  colorScheme : ColorScheme;
  contrast : Q;
  brightness : Q
}.

(** [this.tool] *)
Record Tool := {
  tool_type : ToolType;
  chemical : Chemical;
  size : Q;
  strength : Q
}.

(** [this.journey]; [target] is the pair [(targetF, targetK)], which the
    code only sets together: [None] while both are [undefined]. *)
Record Journey := {
  journey_type : JourneyType;
  active : bool;
  speed : Q;
  time : Q;
  startF : Q;
  startK : Q;
  target : option (Q * Q)
}.

(** The fields of [this] the engine uses.  [textures] is the ping-pong pair
    [this.textures[0], this.textures[1]] ([this.framebuffers[i]] renders into
    [this.textures[i]]); [canvas] is the default framebuffer; [random] is the
    sequence of values [Math.random()] returns and [randomCalls] counts the
    calls made so far. *)
Record TuringSimulation := {
  params : Params;
  visual : Visual;
  tool : Tool;
  journey : Journey;
  isRunning : bool;
  resolution : Z;
  textures : texture * texture;
  currentTexture : nat;
  lastTime : Q;
  canvas : texture;
  random : nat -> Q;
  randomCalls : nat
}.

Definition set_params (p : Params) (st : TuringSimulation) : TuringSimulation :=
  {| params := p; visual := visual st; tool := tool st; journey := journey st;
     isRunning := isRunning st; resolution := resolution st;
     textures := textures st; currentTexture := currentTexture st;
     lastTime := lastTime st; canvas := canvas st;
     random := random st; randomCalls := randomCalls st |}.

Definition set_visual (v : Visual) (st : TuringSimulation) : TuringSimulation :=
  {| params := params st; visual := v; tool := tool st; journey := journey st;
     isRunning := isRunning st; resolution := resolution st;
     textures := textures st; currentTexture := currentTexture st;
     lastTime := lastTime st; canvas := canvas st;
     random := random st; randomCalls := randomCalls st |}.

Definition set_tool (t : Tool) (st : TuringSimulation) : TuringSimulation :=
  {| params := params st; visual := visual st; tool := t; journey := journey st;
     isRunning := isRunning st; resolution := resolution st;
     textures := textures st; currentTexture := currentTexture st;
     lastTime := lastTime st; canvas := canvas st;
     random := random st; randomCalls := randomCalls st |}.

Definition set_journey (j : Journey) (st : TuringSimulation) : TuringSimulation :=
  {| params := params st; visual := visual st; tool := tool st; journey := j;
     isRunning := isRunning st; resolution := resolution st;
     textures := textures st; currentTexture := currentTexture st;
     lastTime := lastTime st; canvas := canvas st;
     random := random st; randomCalls := randomCalls st |}.

Definition set_isRunning (r : bool) (st : TuringSimulation) : TuringSimulation :=
  {| params := params st; visual := visual st; tool := tool st; journey := journey st;
     isRunning := r; resolution := resolution st;
     textures := textures st; currentTexture := currentTexture st;
     lastTime := lastTime st; canvas := canvas st;
     random := random st; randomCalls := randomCalls st |}.

Definition set_textures (t : texture * texture) (st : TuringSimulation) : TuringSimulation :=
  {| params := params st; visual := visual st; tool := tool st; journey := journey st;
     isRunning := isRunning st; resolution := resolution st;
     textures := t; currentTexture := currentTexture st;
     lastTime := lastTime st; canvas := canvas st;
     random := random st; randomCalls := randomCalls st |}.

Definition set_currentTexture (c : nat) (st : TuringSimulation) : TuringSimulation :=
  {| params := params st; visual := visual st; tool := tool st; journey := journey st;
     isRunning := isRunning st; resolution := resolution st;
     textures := textures st; currentTexture := c;
     lastTime := lastTime st; canvas := canvas st;
     random := random st; randomCalls := randomCalls st |}.

Definition set_lastTime (t : Q) (st : TuringSimulation) : TuringSimulation :=
  {| params := params st; visual := visual st; tool := tool st; journey := journey st;
     isRunning := isRunning st; resolution := resolution st;
     textures := textures st; currentTexture := currentTexture st;
     lastTime := t; canvas := canvas st;
     random := random st; randomCalls := randomCalls st |}.

Definition set_canvas (c : texture) (st : TuringSimulation) : TuringSimulation :=
  {| params := params st; visual := visual st; tool := tool st; journey := journey st;
     isRunning := isRunning st; resolution := resolution st;
     textures := textures st; currentTexture := currentTexture st;
     lastTime := lastTime st; canvas := c;
     random := random st; randomCalls := randomCalls st |}.

Definition set_randomCalls (n : nat) (st : TuringSimulation) : TuringSimulation :=
  {| params := params st; visual := visual st; tool := tool st; journey := journey st;
     isRunning := isRunning st; resolution := resolution st;
     textures := textures st; currentTexture := currentTexture st;
     lastTime := lastTime st; canvas := canvas st;
     random := random st; randomCalls := n |}.

(** [this.textures[i]] *)
Definition texture_at (st : TuringSimulation) (i : nat) : texture :=
  match i with O => fst (textures st) | _ => snd (textures st) end.

(** Rendering into [this.framebuffers[i]] replaces [this.textures[i]]. *)
Definition write_texture (i : nat) (t : texture) (st : TuringSimulation) : TuringSimulation :=
  match i with
  | O => set_textures (t, snd (textures st)) st
  | _ => set_textures (fst (textures st), t) st
  end.

(** [Math.random()] *)
Definition Math_random (st : TuringSimulation) : Q * TuringSimulation :=
  (random st (randomCalls st), set_randomCalls (S (randomCalls st)) st).

(** ** [simulate] *)

(** One iteration of the [for] loop of [simulate]: a simulation pass from
    [textures[currentTexture]] into [framebuffers[1 - currentTexture]], then
    the flip of [currentTexture]. *)
Definition simulate_iteration (st : TuringSimulation) : TuringSimulation :=
  let srcTexture := texture_at st (currentTexture st) in
  let dst := (1 - currentTexture st)%nat in
  (* [u_system] is never assigned by the code: it keeps its initial value 0 *)
  let U := {| u_resolution := Vec2 (inject_Z (resolution st)) (inject_Z (resolution st));
              u_feed := feedRate (params st);
              u_kill := killRate (params st);
              u_diffusionA := diffusionA (params st);
              u_diffusionB := diffusionB (params st);
              u_dt := 1.0;
              u_system := 0 |} in
  let st := write_texture dst
              (drawArrays (resolution st) (simulation_main (resolution st) srcTexture U)) st in
  set_currentTexture (1 - currentTexture st)%nat st.

Definition simulate (st : TuringSimulation) : TuringSimulation :=
  if negb (isRunning st) then st
  else
    let steps := Qceiling (simSpeed (params st) * 8) in
    Nat.iter (Z.to_nat steps) simulate_iteration st.

(** [togglePause] *)
Definition togglePause (st : TuringSimulation) : TuringSimulation :=
  set_isRunning (negb (isRunning st)) st.

(** ** [render] *)

(** [this.colorSchemes] *)
Definition colorSchemes (c : ColorScheme) : (Q * Q * Q) * (Q * Q * Q) :=
  match c with
  | Classic => ((0, 0, 0), (255, 255, 255))
  | Thermal => ((0, 0, 128), (255, 0, 0))
  | Ocean => ((0, 30, 60), (0, 200, 255))
  | Forest => ((10, 30, 10), (100, 200, 80))
  | Sunset => ((60, 20, 80), (255, 150, 50))
  | Neon => ((10, 0, 30), (0, 255, 200))
  end.

Definition color_uniform (c : Q * Q * Q) : vec3 :=
  let '(r, g, b) := c in Vec3 (r / 255) (g / 255) (b / 255).

Definition render_uniforms (st : TuringSimulation) : RenderUniforms :=
  let colors := colorSchemes (colorScheme (visual st)) in
  {| u_color1 := color_uniform (fst colors);
     u_color2 := color_uniform (snd colors);
     u_contrast := contrast (visual st);
     u_brightness := brightness (visual st) |}.

(** [render]: a render pass from [textures[currentTexture]] into the default
    framebuffer (the canvas, [resolution * resolution] pixels). *)
Definition render (st : TuringSimulation) : TuringSimulation :=
  set_canvas
    (drawArrays (resolution st)
       (render_main (resolution st) (texture_at st (currentTexture st)) (render_uniforms st)))
    st.

(** ** Forcing: [applyBrush], [applyStamp], [handleCanvasInteraction] *)

(** [data[i + 1] = 255] for the texel of index [k]: channel B becomes 1.0. *)
Fixpoint data_set_B (k : nat) (data : texture) : texture :=
  match data, k with
  | [], _ => []
  | c :: rest, O => set_g c 1 :: rest
  | c :: rest, S k' => c :: data_set_B k' rest
  end.

(** The values a loop [for (let d = -radius; d <= radius; d++)] takes:
    [-radius + i] for [i = 0 .. floor(2 * radius)], none when [radius < 0]. *)
Definition stamp_offsets (radius : Q) : list Q :=
  map (fun i => - radius + inject_Z (Z.of_nat i))
      (seq 0 (Z.to_nat (Qfloor (2 * radius) + 1))).

(** The body of the inner loop of [applyStamp]. *)
Definition stamp_body (res : Z) (x y radius dy : Q) (data : texture) (dx : Q) : texture :=
  if Qle_bool (dx * dx + dy * dy) (radius * radius) then
    let px := Qfloor (x + dx) in
    let py := Qfloor (inject_Z res - y + dy) in
    if ((0 <=? px) && (px <? res) && (0 <=? py) && (py <? res))%Z then
      data_set_B (Z.to_nat (py * res + px)) data
    else data
  else data.

(** The two nested loops of [applyStamp] over the pixels read back. *)
Definition stamp_data (res : Z) (x y radius : Q) (data : texture) : texture :=
  fold_left
    (fun data dy => fold_left (stamp_body res x y radius dy) (stamp_offsets radius) data)
    (stamp_offsets radius) data.

(** [applyStamp(x, y)]: [readPixels] from [framebuffers[currentTexture]], the
    hard-edged disc set on the CPU, and [texImage2D] of the result into
    [textures[currentTexture]]. *)
Definition applyStamp (x y : Q) (st : TuringSimulation) : TuringSimulation :=
  let data := texture_at st (currentTexture st) in
  let radius := size (tool st) in
  let data := stamp_data (resolution st) x y radius data in
  write_texture (currentTexture st) data st.

Section Forcing.

Variable sqrt : Q -> Q.

Definition brush_uniforms (x y : Q) (st : TuringSimulation) : BrushUniforms :=
  {| ub_resolution := Vec2 (inject_Z (resolution st)) (inject_Z (resolution st));
     u_brushPos := Vec2 x (inject_Z (resolution st) - y);
     u_brushSize := size (tool st);
     u_brushStrength := strength (tool st);
     u_chemical := match chemical (tool st) with ChemB => 1 | ChemA => 0 end |}.

(** [applyBrush(x, y)]: a brush pass from [textures[currentTexture]] into
    [framebuffers[1 - currentTexture]], then the flip of [currentTexture]. *)
Definition applyBrush (x y : Q) (st : TuringSimulation) : TuringSimulation :=
  let srcTexture := texture_at st (currentTexture st) in
  let dst := (1 - currentTexture st)%nat in
  let st := write_texture dst
              (drawArrays (resolution st)
                 (brush_main sqrt (resolution st) srcTexture (brush_uniforms x y st))) st in
  set_currentTexture (1 - currentTexture st)%nat st.

Definition set_chemical (c : Chemical) (st : TuringSimulation) : TuringSimulation :=
  set_tool {| tool_type := tool_type (tool st); chemical := c;
              size := size (tool st); strength := strength (tool st) |} st.

(** The pointer event and [canvas.getBoundingClientRect()]. *)
Record MouseEvent := { clientX : Q; clientY : Q }.
Record DOMRect := { rect_left : Q; rect_top : Q; rect_width : Q; rect_height : Q }.

(** [handleCanvasInteraction(e)] *)
Definition handleCanvasInteraction (rect : DOMRect) (e : MouseEvent)
    (st : TuringSimulation) : TuringSimulation :=
  let scaleX := inject_Z (resolution st) / rect_width rect in
  let scaleY := inject_Z (resolution st) / rect_height rect in
  let x := (clientX e - rect_left rect) * scaleX in
  let y := (clientY e - rect_top rect) * scaleY in
  match tool_type (tool st) with
  | Brush | Eraser =>
      let chem := match tool_type (tool st) with
                  | Eraser => ChemA
                  | _ => chemical (tool st)
                  end in
      let origChemical := chemical (tool st) in
      let st := set_chemical chem st in
      let st := applyBrush x y st in
      set_chemical origChemical st
  | Stamp => applyStamp x y st
  end.

End Forcing.

(** ** Parameter control: sliders, [animateToParams], [updateJourney] *)

Inductive Slider :=
  | SFeedRate | SKillRate | SDiffusionA | SDiffusionB | SSimSpeed
  | SContrast | SBrightness.

Definition with_feedRate (v : Q) (p : Params) : Params :=
  {| feedRate := v; killRate := killRate p; diffusionA := diffusionA p;
     diffusionB := diffusionB p; simSpeed := simSpeed p; system := system p |}.
Definition with_killRate (v : Q) (p : Params) : Params :=
  {| feedRate := feedRate p; killRate := v; diffusionA := diffusionA p;
     diffusionB := diffusionB p; simSpeed := simSpeed p; system := system p |}.
Definition with_diffusionA (v : Q) (p : Params) : Params :=
  {| feedRate := feedRate p; killRate := killRate p; diffusionA := v;
     diffusionB := diffusionB p; simSpeed := simSpeed p; system := system p |}.
Definition with_diffusionB (v : Q) (p : Params) : Params :=
  {| feedRate := feedRate p; killRate := killRate p; diffusionA := diffusionA p;
     diffusionB := v; simSpeed := simSpeed p; system := system p |}.
Definition with_simSpeed (v : Q) (p : Params) : Params :=
  {| feedRate := feedRate p; killRate := killRate p; diffusionA := diffusionA p;
     diffusionB := diffusionB p; simSpeed := v; system := system p |}.
Definition with_system (s : System) (p : Params) : Params :=
  {| feedRate := feedRate p; killRate := killRate p; diffusionA := diffusionA p;
     diffusionB := diffusionB p; simSpeed := simSpeed p; system := s |}.

(** The [update] closure of [setupSlider] with the callback [setupUI]
    registers for each slider: [update(parseFloat(e.target.value))] stores
    the value as it is. *)
Definition slider_update (s : Slider) (value : Q) (st : TuringSimulation) : TuringSimulation :=
  match s with
  | SFeedRate => set_params (with_feedRate value (params st)) st
  | SKillRate => set_params (with_killRate value (params st)) st
  | SDiffusionA => set_params (with_diffusionA value (params st)) st
  | SDiffusionB => set_params (with_diffusionB value (params st)) st
  | SSimSpeed => set_params (with_simSpeed value (params st)) st
  | SContrast =>
      set_visual {| colorScheme := colorScheme (visual st); contrast := value;
                    brightness := brightness (visual st) |} st
  | SBrightness =>
      set_visual {| colorScheme := colorScheme (visual st);
                    contrast := contrast (visual st); brightness := value |} st
  end.

(** The [change] handler of [systemSelect]: [this.params.system =
    e.target.value]. *)
Definition systemSelect_change (s : System) (st : TuringSimulation) : TuringSimulation :=
  set_params (with_system s (params st)) st.

(** The closure [animate] of [animateToParams]: what it captured. *)
Record Easing := {
  ease_startF : Q;
  ease_startK : Q;
  ease_targetF : Q;
  ease_targetK : Q;
  ease_startTime : Q
}.

Definition duration : Q := 1000.

(** [progress] and [eased] of a sample taken at clock reading [now]. *)
Definition ease_progress (e : Easing) (now : Q) : Q :=
  let elapsed := now - ease_startTime e in
  Qmin 1 (elapsed / duration).

Definition ease_eased (e : Easing) (now : Q) : Q :=
  1 - Qpower (1 - ease_progress e now) 3. (* Ease out cubic *)

(** One call of the closure: the parameters it stores. *)
Definition ease_sample (e : Easing) (now : Q) (st : TuringSimulation) : TuringSimulation :=
  let eased := ease_eased e now in
  let p := with_feedRate (ease_startF e + (ease_targetF e - ease_startF e) * eased) (params st) in
  let p := with_killRate (ease_startK e + (ease_targetK e - ease_startK e) * eased) p in
  set_params p st.

(** The closure called once per clock reading of [samples]: it asks for
    another animation frame while [progress < 1]. *)
Fixpoint ease_run (e : Easing) (samples : list Q) (st : TuringSimulation) : TuringSimulation :=
  match samples with
  | [] => st
  | now :: rest =>
      let st := ease_sample e now st in
      if Qlt_le_dec (ease_progress e now) 1 then ease_run e rest st else st
  end.

(** The states after each call of the closure. *)
Fixpoint ease_trace (e : Easing) (samples : list Q) (st : TuringSimulation)
    : list TuringSimulation :=
  match samples with
  | [] => []
  | now :: rest =>
      let st := ease_sample e now st in
      st :: (if Qlt_le_dec (ease_progress e now) 1 then ease_trace e rest st else [])
  end.

(** [animateToParams(targetF, targetK)]: [startTime] is the reading of
    [performance.now()] at the call; [samples] are the readings inside the
    closure, the first one in the synchronous call [animate()], the next
    ones once per animation frame. *)
Definition animateToParams_easing (targetF targetK startTime : Q) (st : TuringSimulation) : Easing :=
  {| ease_startF := feedRate (params st);
     ease_startK := killRate (params st);
     ease_targetF := targetF;
     ease_targetK := targetK;
     ease_startTime := startTime |}.

Definition animateToParams (targetF targetK startTime : Q) (samples : list Q)
    (st : TuringSimulation) : TuringSimulation :=
  ease_run (animateToParams_easing targetF targetK startTime st) samples st.

(** [this.presets] *)
Definition presets (s : System) : list (Q * Q) :=
  match s with
  | GrayScott =>
      [ (0.0367, 0.0649) (* Mitosis *); (0.0545, 0.0620) (* Coral *);
        (0.0370, 0.0610) (* Fingerprint *); (0.0180, 0.0510) (* Spirals *);
        (0.0290, 0.0570) (* Maze *); (0.0380, 0.0660) (* Spots *);
        (0.0350, 0.0600) (* Stripes *); (0.0140, 0.0450) (* Waves *);
        (0.0250, 0.0550) (* Solitons *); (0.0460, 0.0650) (* Worms *);
        (0.0390, 0.0649) (* Holes *); (0.0260, 0.0590) (* Chaos *) ]
  | Brusselator =>
      [ (0.04, 0.06) (* Spots *); (0.035, 0.065) (* Stripes *);
        (0.02, 0.055) (* Spirals *); (0.025, 0.058) (* Waves *);
        (0.03, 0.062) (* Mixed *); (0.045, 0.052) (* Chaos *) ]
  | Schnakenberg =>
      [ (0.04, 0.06) (* Dots *); (0.03, 0.065) (* Lines *);
        (0.035, 0.058) (* Mixed *); (0.02, 0.07) (* Sparse *);
        (0.05, 0.055) (* Dense *); (0.025, 0.062) (* Waves *) ]
  end.

Section JourneySection.

(** [Math.sin] and [Math.cos]. *)
Variables Math_sin Math_cos : Q -> Q.

Definition with_time (t : Q) (j : Journey) : Journey :=
  {| journey_type := journey_type j; active := active j; speed := speed j;
     time := t; startF := startF j; startK := startK j; target := target j |}.

Definition with_target (tg : option (Q * Q)) (j : Journey) : Journey :=
  {| journey_type := journey_type j; active := active j; speed := speed j;
     time := time j; startF := startF j; startK := startK j; target := tg |}.

(** [!this.journey.targetF]: true for [undefined] and for 0. *)
Definition targetF_falsy (j : Journey) : bool :=
  match target j with
  | None => true
  | Some (tf, _) => Qeq_bool tf 0
  end.

(** The [case 'random'] of [updateJourney]: the re-roll of the target. *)
Definition journey_reroll (st : TuringSimulation) : TuringSimulation :=
  let roll (st : TuringSimulation) :=
    let (r1, st) := Math_random st in
    let (r2, st) := Math_random st in
    set_journey (with_target (Some (0.015 + r1 * 0.045, 0.045 + r2 * 0.03)) (journey st)) st in
  if targetF_falsy (journey st) then roll st
  else
    let (r, st) := Math_random st in
    if Qlt_le_dec r 0.01 then roll st else st.

(** [updateJourney(dt)]; the [switch] leaves [f] and [k] [undefined] ([None])
    when no case matches. *)
Definition updateJourney (dt : Q) (st : TuringSimulation) : TuringSimulation :=
  if negb (active (journey st))
     || match journey_type (journey st) with JNone => true | _ => false end
  then st
  else
    let st := set_journey
                (with_time (time (journey st) + dt * speed (journey st) * 0.001)
                   (journey st)) st in
    let t := time (journey st) in
    let '(fk, st) :=
      match journey_type (journey st) with
      | JLinear =>
          (* Linear interpolation between two points *)
          let progress := (Math_sin (t * 0.5) + 1) / 2 in
          (Some (0.02 + progress * 0.04, 0.045 + progress * 0.025), st)
      | JCircular =>
          (* Circular orbit in parameter space *)
          let cx := 0.04 in
          let cy := 0.058 in
          let radius := 0.015 in
          (Some (cx + Math_cos t * radius, cy + Math_sin t * radius), st)
      | JFigure8 =>
          (* Figure-8 pattern *)
          (Some (0.04 + Math_sin t * 0.02, 0.058 + Math_sin (t * 2) * 0.01), st)
      | JRandom =>
          (* Random walk with smooth interpolation *)
          let st := journey_reroll st in
          let '(tf, tk) := match target (journey st) with
                           | Some tg => tg
                           | None => (0, 0)
                           end in
          (Some (feedRate (params st) + (tf - feedRate (params st)) * 0.02,
                 killRate (params st) + (tk - killRate (params st)) * 0.02), st)
      | JNone => (None, st)
      end in
    match fk with
    | Some (f, k) =>
        let p := with_feedRate (Qmax 0 (Qmin 0.1 f)) (params st) in
        let p := with_killRate (Qmax 0 (Qmin 0.08 k)) p in
        set_params p st
    | None => st
    end.

(** [animate()]: one animation frame at clock reading [now] (the FPS counter
    and the parameter-space marker only touch the page). *)
Definition animate (now : Q) (st : TuringSimulation) : TuringSimulation :=
  let dt := now - lastTime st in
  let st := set_lastTime now st in
  let st := updateJourney dt st in
  let st := simulate st in
  render st.

End JourneySection.

(** ** [seedPattern] and the constructor *)

Section Seed.

(** [Math.sqrt] *)
Variable Math_sqrt : Q -> Q.

Definition seedRadius : Q := 20.

(** The body of the first pair of loops of [seedPattern], at the texel of
    index [k = y * resolution + x] ([y] outer, [x] inner: row-major order). *)
Definition seed_center_body (res : Z) (acc : texture * TuringSimulation) (k : nat)
    : texture * TuringSimulation :=
  let '(data, st) := acc in
  let x := (Z.of_nat k mod res)%Z in
  let y := (Z.of_nat k / res)%Z in
  let cx := inject_Z res / 2 in
  let cy := inject_Z res / 2 in
  let dx := inject_Z x - cx in
  let dy := inject_Z y - cy in
  let dist := Math_sqrt (dx * dx + dy * dy) in
  (* Create a few random seed points *)
  if Qlt_le_dec dist seedRadius then (data_set_B k data, st)
  else
    let (r, st) := Math_random st in
    if Qlt_le_dec r 0.001 then (data_set_B k data, st) else (data, st).

(** The body of the inner loops of a random cluster around [(sx, sy)]. *)
Definition seed_cluster_body (res : Z) (sx sy : Q) (data : texture) (k : nat) : texture :=
  let x := (Z.of_nat k mod res)%Z in
  let y := (Z.of_nat k / res)%Z in
  let dx := inject_Z x - sx in
  let dy := inject_Z y - sy in
  if Qlt_le_dec (dx * dx + dy * dy) 100 then data_set_B k data else data.

(** One iteration of [for (let s = 0; s < 5; s++)]. *)
Definition seed_cluster (res : Z) (acc : texture * TuringSimulation)
    : texture * TuringSimulation :=
  let '(data, st) := acc in
  let (r1, st) := Math_random st in
  let sx := r1 * inject_Z res in
  let (r2, st) := Math_random st in
  let sy := r2 * inject_Z res in
  (fold_left (seed_cluster_body res sx sy) (seq 0 (Z.to_nat (res * res))) data, st).

(** [seedPattern()] *)
Definition seedPattern (st : TuringSimulation) : TuringSimulation :=
  let res := resolution st in
  (* Fill with chemical A (white = 1.0) *)
  let data := repeat (Vec4 1 0 0 1) (Z.to_nat (res * res)) in
  (* Add some seeds of chemical B in center *)
  let acc := fold_left (seed_center_body res) (seq 0 (Z.to_nat (res * res))) (data, st) in
  (* Add some additional random clusters *)
  let '(data, st) := Nat.iter 5 (seed_cluster res) acc in
  (* Upload to both textures *)
  set_textures (data, data) st.

(** The state the constructor builds before [init()] seeds it, for a grid of
    [res * res] texels ([512] in the source) and a given run of
    [Math.random()]. *)
Definition constructed (res : Z) (rnd : nat -> Q) (now : Q) : TuringSimulation :=
  {| params := {| feedRate := 0.055; killRate := 0.062; diffusionA := 0.21;
                  diffusionB := 0.105; simSpeed := 1.0; system := GrayScott |};
     visual := {| colorScheme := Classic; contrast := 1.0; brightness := 1.0 |};
     tool := {| tool_type := Brush; chemical := ChemB; size := 30; strength := 1.0 |};
     journey := {| journey_type := JNone; active := false; speed := 1.0; time := 0;
                   startF := 0; startK := 0; target := None |};
     isRunning := true;
     resolution := res;
     textures := (repeat texel_default (Z.to_nat (res * res)),
                  repeat texel_default (Z.to_nat (res * res)));
     currentTexture := 0;
     lastTime := now;
     canvas := repeat texel_default (Z.to_nat (res * res));
     random := rnd;
     randomCalls := 0 |}.

End Seed.

(** An executable square root for evaluation: [floor(sqrt(x) * 2^24) / 2^24],
    and 0 for [x <= 0]. *)
Definition sqrt_fx (x : Q) : Q :=
  Z.sqrt (Qfloor (x * inject_Z (2 ^ 48))) # (2 ^ 24).

(** ** Predicates on fields *)

(** Both channels of a texel lie in [[0, 1]]. *)
Definition in_unit (c : vec4) : Prop :=
  (0 <= cr c /\ cr c <= 1) /\ (0 <= cg c /\ cg c <= 1).

Definition field_in_unit (t : texture) : Prop := Forall in_unit t.

(** [textures[currentTexture]]: the buffer a pass reads. *)
Definition current_field (st : TuringSimulation) : texture :=
  texture_at st (currentTexture st).

(** [textures[1 - currentTexture]]: the buffer a pass writes. *)
Definition scratch_field (st : TuringSimulation) : texture :=
  texture_at st (1 - currentTexture st).

(** ** Interleaved operations *)

(** What drives the field: a frame of the stepper, a brush application, a
    stamp. *)
Inductive Command :=
  | Frame
  | BrushAt (x y : Q)
  | StampAt (x y : Q).

Definition run_command (sqrt : Q -> Q) (st : TuringSimulation) (c : Command)
    : TuringSimulation :=
  match c with
  | Frame => simulate st
  | BrushAt x y => applyBrush sqrt x y st
  | StampAt x y => applyStamp x y st
  end.

Definition run_commands (sqrt : Q -> Q) (cs : list Command) (st : TuringSimulation)
    : TuringSimulation :=
  fold_left (run_command sqrt) cs st.

(** ** The specification's formulas *)

(** The formulas of the specification, in its own words. *)
Module Spec.

Definition clamp01 (x : Q) : Q :=
  if Qlt_le_dec x 0 then 0 else if Qlt_le_dec 1 x then 1 else x.

(** [laplacian = 0.2*(N+S+E+W) + 0.05*(NE+NW+SE+SW) - center] *)
Definition laplacian (N S E W NE NW SE SW center : Q) : Q :=
  0.2 * (N + S + E + W) + 0.05 * (NE + NW + SE + SW) - center.

(** Gray-Scott: [da = -a*b*b + F*(1-a)], [db = a*b*b - (K+F)*b]. *)
Definition gray_scott_da (a b F : Q) : Q := - a * b * b + F * (1 - a).
Definition gray_scott_db (a b F K : Q) : Q := a * b * b - (K + F) * b.

Definition dt : Q := 1.0.

(** The 9-point Laplacian of one channel [ch] at cell [(x, y)] of the
    toroidal grid [t]. *)
Definition laplacian_at (res : Z) (t : texture) (ch : vec4 -> Q) (x y : Z) : Q :=
  let at_ dx dy := ch (texel res t (x + dx) (y + dy)) in
  (laplacian (at_ 0 1 (* N *) ) (at_ 0 (-1) (* S *)) (at_ 1 0 (* E *)) (at_ (-1) 0 (* W *))
            (at_ 1 1) (at_ (-1) 1) (at_ 1 (-1)) (at_ (-1) (-1))
            (ch (texel res t x y)))%Z.

(** Colorizer: [value' = clamp01((value - 0.5)*contrast + 0.5) * brightness]. *)
Definition colorizer_value (value contrast brightness : Q) : Q :=
  clamp01 ((value - 0.5) * contrast + 0.5) * brightness.

(** Forcing: [falloff = (1 - dist/radius)^2 * strength]. *)
Definition falloff (dist radius strength : Q) : Q :=
  (1 - dist / radius) * (1 - dist / radius) * strength.

(** The distance between two points of the torus of side [side]: along each
    axis the shorter way round. *)
Definition torus_delta (side d : Q) : Q := Qmin (Qabs d) (side - Qabs d).

Definition torus_distance (sqrt : Q -> Q) (side : Q) (p q : vec2) : Q :=
  let dx := torus_delta side (vx p - vx q) in
  let dy := torus_delta side (vy p - vy q) in
  sqrt (dx * dx + dy * dy).

End Spec.


(** ** The claims of the specification that the code is checked against *)

(** The position [pos = v_texCoord * u_resolution] of the fragment of cell
    [(x, y)]: the centre of the cell, [(x + 0.5, y + 0.5)]. *)
Definition cell_pos (res : Z) (x y : Z) : vec2 :=
  vec2_mul (v_texCoord_at res x y) (Vec2 (inject_Z res) (inject_Z res)).

(** The domains of the feed rate and of the kill rate. *)
Definition F_domain (F : Q) : Prop := 0 <= F /\ F <= 0.1.
Definition K_domain (K : Q) : Prop := 0 <= K /\ K <= 0.08.
Definition params_in_domain (p : Params) : Prop :=
  F_domain (feedRate p) /\ K_domain (killRate p).

(** The forcing operator as the specification words it, for the brush put
    down by [applyBrush(mx, my)]: at every cell nearer than the radius, measured on
    the torus, the selected channel receives [clamp01(old + falloff)] or
    [clamp01(old - falloff)] and the other channel stays. *)
Definition applyForce_claim (sqrt : Q -> Q) (mx my : Q) (st : TuringSimulation) : Prop :=
  forall x y : Z,
    (0 <= x < resolution st)%Z -> (0 <= y < resolution st)%Z ->
    let res := resolution st in
    let c := texel res (current_field st) x y in
    let c' := texel res (current_field (applyBrush sqrt mx my st)) x y in
    let dist := Spec.torus_distance sqrt (inject_Z res) (cell_pos res x y)
                  (Vec2 mx (inject_Z res - my)) in
    let falloff := Spec.falloff dist (size (tool st)) (strength (tool st)) in
    dist < size (tool st) ->
    match chemical (tool st) with
    | ChemA =>
        (cr c' == Spec.clamp01 (cr c + falloff) \/ cr c' == Spec.clamp01 (cr c - falloff))
        /\ cg c' == cg c
    | ChemB =>
        (cg c' == Spec.clamp01 (cg c + falloff) \/ cg c' == Spec.clamp01 (cg c - falloff))
        /\ cr c' == cr c
    end.

(** The ping-pong discipline of an operation [op]: the buffer that was
    current is only read, and [currentTexture] is flipped, so that the result
    was written into the scratch buffer. *)
Definition ping_pong (op : TuringSimulation -> TuringSimulation) (st : TuringSimulation)
    : Prop :=
  currentTexture (op st) = (1 - currentTexture st)%nat
  /\ texture_at (op st) (currentTexture st) = current_field st.

(** The colorizer as the specification words it: the displayed pixel of
    every cell is the mix of the two endpoint colours by
    [clamp01((value - 0.5)*contrast + 0.5) * brightness]. *)
Definition colorizer_claim (st : TuringSimulation) : Prop :=
  forall x y : Z,
    (0 <= x < resolution st)%Z -> (0 <= y < resolution st)%Z ->
    let res := resolution st in
    let value := cg (texel res (current_field st) x y) in
    let value' := Spec.colorizer_value value (contrast (visual st)) (brightness (visual st)) in
    let U := render_uniforms st in
    let px := texel res (canvas (render st)) x y in
    cr px == mix (c1 (u_color1 U)) (c1 (u_color2 U)) value'
    /\ cg px == mix (c2 (u_color1 U)) (c2 (u_color2 U)) value'
    /\ cb px == mix (c3 (u_color1 U)) (c3 (u_color2 U)) value'.

(** What a state stored by the sample taken at [now] holds. *)
Definition sampled_at (e : Easing) (now : Q) (s : TuringSimulation) : Prop :=
  feedRate (params s)
    = ease_startF e + (ease_targetF e - ease_startF e) * ease_eased e now
  /\ killRate (params s)
    = ease_startK e + (ease_targetK e - ease_startK e) * ease_eased e now.

(** Progress toward the target of an eased transition: state [s2] is at
    least as near to the target as state [s1], in both parameters. *)
Definition not_farther (e : Easing) (s1 s2 : TuringSimulation) : Prop :=
  Qabs (ease_targetF e - feedRate (params s2))
    <= Qabs (ease_targetF e - feedRate (params s1))
  /\ Qabs (ease_targetK e - killRate (params s2))
    <= Qabs (ease_targetK e - killRate (params s1)).

(** ** Example states *)

Definition example_random (n : nat) : Q := 1 # 2.

(** A seeded [3 * 3] grid, as [init()] leaves it. *)
Definition example_seeded : TuringSimulation :=
  seedPattern sqrt_fx (constructed 3 example_random 0).

(** The same, paused. *)
Definition example_paused : TuringSimulation := togglePause example_seeded.

(** A seeded [3 * 3] grid with the given tool. *)
Definition example_tool (t : ToolType) (c : Chemical) (sz str : Q) : TuringSimulation :=
  set_tool {| tool_type := t; chemical := c; size := sz; strength := str |} example_seeded.

(** A [4 * 4] grid with A = 1 and B = 1/2 in every cell of both buffers, and
    the brush on chemical B with radius 2 and strength 1/2. *)
Definition example_half : TuringSimulation :=
  set_textures (repeat (Vec4 1 (1 # 2) 0 1) 16, repeat (Vec4 1 (1 # 2) 0 1) 16)
    (set_tool {| tool_type := Brush; chemical := ChemB; size := 2; strength := 1 # 2 |}
       (constructed 4 example_random 0)).

(** An unseeded [3 * 3] grid (both channels 0 everywhere) with the brush on
    chemical B, radius 6/5, strength 1. *)
Definition example_blank : TuringSimulation :=
  set_tool {| tool_type := Brush; chemical := ChemB; size := 6 # 5; strength := 1 |}
    (constructed 3 example_random 0).

(** A seeded [3 * 3] grid shown with contrast 2 and brightness 1/2. *)
Definition example_visual : TuringSimulation :=
  set_visual {| colorScheme := Classic; contrast := 2; brightness := 1 # 2 |} example_seeded.

(** A state whose parameters are [F = 0.02], [K = 0.03]. *)
Definition example_params : TuringSimulation :=
  slider_update SKillRate 0.03 (slider_update SFeedRate 0.02 example_seeded).

(** ** More of [class TuringSimulation]: the other handlers of [setupUI] *)

(** The [click] handler of [stepBtn]:
    [if (!this.isRunning) { this.simulate(); this.render(); }]. *)
Definition stepBtn_click (st : TuringSimulation) : TuringSimulation :=
  if negb (isRunning st) then render (simulate st) else st.

(** The [click] handler of [startJourney]: [active] is toggled and the phase
    [time] restarts at 0. *)
Definition startJourney_click (st : TuringSimulation) : TuringSimulation :=
  let j := journey st in
  set_journey {| journey_type := journey_type j; active := negb (active j);
                 speed := speed j; time := 0; startF := startF j; startK := startK j;
                 target := target j |} st.

(** The [change] handler of [journeyType] and the [input] handler of
    [journeySpeed]. *)
Definition journeyType_change (t : JourneyType) (st : TuringSimulation) : TuringSimulation :=
  let j := journey st in
  set_journey {| journey_type := t; active := active j; speed := speed j;
                 time := time j; startF := startF j; startK := startK j;
                 target := target j |} st.

Definition journeySpeed_input (v : Q) (st : TuringSimulation) : TuringSimulation :=
  let j := journey st in
  set_journey {| journey_type := journey_type j; active := active j; speed := v;
                 time := time j; startF := startF j; startK := startK j;
                 target := target j |} st.

(** The [wheel] handler of the canvas:
    [this.tool.size = Math.max(5, Math.min(100, this.tool.size - e.deltaY * 0.1))]. *)
Definition canvas_wheel (deltaY : Q) (st : TuringSimulation) : TuringSimulation :=
  set_tool {| tool_type := tool_type (tool st); chemical := chemical (tool st);
              size := Qmax 5 (Qmin 100 (size (tool st) - deltaY * 0.1));
              strength := strength (tool st) |} st.

(** The [input] handlers of [brushSize] and [brushStrength], and the tool
    and chemical buttons. *)
Definition brushSize_input (v : Q) (st : TuringSimulation) : TuringSimulation :=
  set_tool {| tool_type := tool_type (tool st); chemical := chemical (tool st);
              size := v; strength := strength (tool st) |} st.

Definition brushStrength_input (v : Q) (st : TuringSimulation) : TuringSimulation :=
  set_tool {| tool_type := tool_type (tool st); chemical := chemical (tool st);
              size := size (tool st); strength := v |} st.

Definition toolBtn_click (t : ToolType) (st : TuringSimulation) : TuringSimulation :=
  set_tool {| tool_type := t; chemical := chemical (tool st);
              size := size (tool st); strength := strength (tool st) |} st.

(** Animation frames at the successive clock readings [nows]. *)
Definition frames (Math_sin Math_cos : Q -> Q) (nows : list Q) (st : TuringSimulation)
    : TuringSimulation :=
  fold_left (fun st now => animate Math_sin Math_cos now st) nows st.

(** ** The parameter-space plot *)

(** The [click] handler of [setupParameterSpace]: the click position in the
    plot, as fractions of its rectangle, times 0.08, is the target of
    [animateToParams] ([startTime] and [samples] as there). *)
Definition parameterSpace_target (rect : DOMRect) (e : MouseEvent) : Q * Q :=
  let x := (clientX e - rect_left rect) / rect_width rect in
  let y := 1 - (clientY e - rect_top rect) / rect_height rect in
  let f := x * 0.08 in
  let k := y * 0.08 in
  (f, k).

Definition parameterSpace_click (rect : DOMRect) (e : MouseEvent) (startTime : Q)
    (samples : list Q) (st : TuringSimulation) : TuringSimulation :=
  let '(f, k) := parameterSpace_target rect e in
  animateToParams f k startTime samples st.

(** The position [(x, y)] of the crosshair of [updateParameterSpaceMarker] on
    a plot canvas of [width * height] pixels. *)
Definition parameterSpaceMarker (width height : Q) (st : TuringSimulation) : Q * Q :=
  let x := (feedRate (params st) / 0.08) * width in
  let y := (1 - killRate (params st) / 0.08) * height in
  (x, y).







(** The [click] handler of the preset button of index [i]
    ([populatePresets]): [animateToParams(preset.f, preset.k)]; there is a
    button for each entry of the list only. *)
Definition preset_click (i : nat) (startTime : Q) (samples : list Q)
    (st : TuringSimulation) : option TuringSimulation :=
  match nth_error (presets (system (params st))) i with
  | Some (f, k) => Some (animateToParams f k startTime samples st)
  | None => None
  end.

(** ** Well-formed states *)

(** The ping-pong index is 0 or 1 and both buffers hold [resolution *
    resolution] texels. *)
Definition well_formed (st : TuringSimulation) : Prop :=
  (currentTexture st <= 1)%nat
  /\ length (fst (textures st)) = Z.to_nat (resolution st * resolution st)
  /\ length (snd (textures st)) = Z.to_nat (resolution st * resolution st).

(** Channel B is 0 in every texel. *)
Definition B_extinct (t : texture) : Prop := Forall (fun c => cg c == 0) t.

(** Every texel has A = [a] and B = [b]. *)
Definition uniform_field (a b : Q) (t : texture) : Prop :=
  Forall (fun c => cr c == a /\ cg c == b) t.

(** A texel of a seeded field: A = 1 and B = 0 or 1. *)
Definition seed_texel (c : vec4) : Prop := c = Vec4 1 0 0 1 \/ c = Vec4 1 1 0 1.

(** The box the random walk rolls its targets in:
    [0.015 + random * 0.045] and [0.045 + random * 0.03] for
    [0 <= random < 1]. *)
Definition target_in_box (tg : Q * Q) : Prop :=
  (0.015 <= fst tg /\ fst tg <= 0.06) /\ (0.045 <= snd tg /\ snd tg <= 0.075).

(** ** Which texels a stamp hits *)

(** Whether the iteration [(dy, dx)] of the loops of [applyStamp] writes
    the texel of index [k]. *)
Definition stamp_hit (res : Z) (x y radius dy dx : Q) (k : nat) : bool :=
  Qle_bool (dx * dx + dy * dy) (radius * radius)
  && (let px := Qfloor (x + dx) in
      let py := Qfloor (inject_Z res - y + dy) in
      ((0 <=? px) && (px <? res) && (0 <=? py) && (py <? res))%Z
      && (Z.to_nat (py * res + px) =? k)%nat).

(** Whether some iteration of the loops writes the texel of index [k]. *)
Definition stamp_hits (res : Z) (x y radius : Q) (k : nat) : bool :=
  existsb (fun dy => existsb (fun dx => stamp_hit res x y radius dy dx k)
                       (stamp_offsets radius))
          (stamp_offsets radius).

(** * Julia Set Explorer: [class JuliaExplorer] of the same file and the
    iteration of [worker.js] *)

Module Julia.

(** [this.juliaBounds], [this.mandelbrotBounds] *)
Record Bounds := { xMin : Q; xMax : Q; yMin : Q; yMax : Q }.

Inductive FractalType := JuliaSet | BurningJulia.

(** [this.params] (the colour scheme only reaches the worker's palette). *)
Record Params := {
  cReal : Q;
  cImag : Q;
  maxIter : Z;
  fractalType : FractalType
}.

(** The fields of [this] the view arithmetic uses. *)
Record Explorer := {
  params : Params;
  juliaBounds : Bounds;
  mandelbrotBounds : Bounds;
  zoom : Q;
  isDragging : bool;
  dragStart : Q * Q;
  dragBoundsStart : option Bounds;
  splitView : bool;
  pendingRender : bool
}.

Definition set_params (p : Params) (ex : Explorer) : Explorer :=
  {| params := p; juliaBounds := juliaBounds ex; mandelbrotBounds := mandelbrotBounds ex;
     zoom := zoom ex; isDragging := isDragging ex; dragStart := dragStart ex;
     dragBoundsStart := dragBoundsStart ex; splitView := splitView ex;
     pendingRender := pendingRender ex |}.

Definition set_juliaBounds (b : Bounds) (ex : Explorer) : Explorer :=
  {| params := params ex; juliaBounds := b; mandelbrotBounds := mandelbrotBounds ex;
     zoom := zoom ex; isDragging := isDragging ex; dragStart := dragStart ex;
     dragBoundsStart := dragBoundsStart ex; splitView := splitView ex;
     pendingRender := pendingRender ex |}.

Definition set_zoom (z : Q) (ex : Explorer) : Explorer :=
  {| params := params ex; juliaBounds := juliaBounds ex;
     mandelbrotBounds := mandelbrotBounds ex;
     zoom := z; isDragging := isDragging ex; dragStart := dragStart ex;
     dragBoundsStart := dragBoundsStart ex; splitView := splitView ex;
     pendingRender := pendingRender ex |}.

Definition set_drag (d : bool) (start : Q * Q) (b : option Bounds) (ex : Explorer) : Explorer :=
  {| params := params ex; juliaBounds := juliaBounds ex;
     mandelbrotBounds := mandelbrotBounds ex;
     zoom := zoom ex; isDragging := d; dragStart := start;
     dragBoundsStart := b; splitView := splitView ex;
     pendingRender := pendingRender ex |}.

(** [render()]: unless a render is pending, the workers are sent the view
    and [pendingRender] is set. *)
Definition render (ex : Explorer) : Explorer :=
  if pendingRender ex then ex
  else
    {| params := params ex; juliaBounds := juliaBounds ex;
       mandelbrotBounds := mandelbrotBounds ex;
       zoom := zoom ex; isDragging := isDragging ex; dragStart := dragStart ex;
       dragBoundsStart := dragBoundsStart ex; splitView := splitView ex;
       pendingRender := true |}.

(** ** [calculateOrbit] *)

Record Point := { real : Q; imag : Q }.

(** The [for] loop of [calculateOrbit], [n] iterations left: the points it
    pushes and whether it broke out with [escaped = true]. *)
Fixpoint orbit_loop (n : nat) (cRe cIm zReal zImag : Q) : list Point * bool :=
  match n with
  | O => ([], false)
  | S n' =>
      (* z = z² + c *)
      let zReal2 := zReal * zReal in
      let zImag2 := zImag * zImag in
      if Qlt_le_dec 4 (zReal2 + zImag2) then ([], true)
      else
        let newReal := zReal2 - zImag2 + cRe in
        let newImag := 2 * zReal * zImag + cIm in
        let '(points, escaped) := orbit_loop n' cRe cIm newReal newImag in
        ({| real := newReal; imag := newImag |} :: points, escaped)
  end.

(** [calculateOrbit(z0Real, z0Imag)]: [{ points, escaped }]. *)
Definition calculateOrbit (ex : Explorer) (z0Real z0Imag : Q) : list Point * bool :=
  let '(points, escaped) :=
    orbit_loop (Z.to_nat (maxIter (params ex))) (cReal (params ex)) (cImag (params ex))
      z0Real z0Imag in
  ({| real := z0Real; imag := z0Imag |} :: points, escaped).

(** ** The view: wheel, drag, click, resize *)

Record WheelEvent := { w_clientX : Q; w_clientY : Q; deltaY : Q }.

(** [handleWheel(e)], [rect] being [juliaCanvas.getBoundingClientRect()]. *)
Definition handleWheel (rect : DOMRect) (e : WheelEvent) (ex : Explorer) : Explorer :=
  let x := w_clientX e - rect_left rect in
  let y := w_clientY e - rect_top rect in
  (* Calculate zoom factor *)
  let zoomFactor := if Qlt_le_dec 0 (deltaY e) then 1.1 else 0.9 in
  let ex := set_zoom (zoom ex * (1 / zoomFactor)) ex in
  (* Zoom centered on cursor *)
  let b := juliaBounds ex in
  let xRange := xMax b - xMin b in
  let yRange := yMax b - yMin b in
  let mouseX := xMin b + (x / rect_width rect) * xRange in
  let mouseY := yMax b - (y / rect_height rect) * yRange in
  let newXRange := xRange * zoomFactor in
  let newYRange := yRange * zoomFactor in
  let ex := set_juliaBounds
              {| xMin := mouseX - (x / rect_width rect) * newXRange;
                 xMax := mouseX + (1 - x / rect_width rect) * newXRange;
                 yMin := mouseY - (1 - y / rect_height rect) * newYRange;
                 yMax := mouseY + (y / rect_height rect) * newYRange |} ex in
  render ex.

(** The complex number under the pointer: [bounds.xMin + (x / rect.width) *
    xRange] and [bounds.yMax - (y / rect.height) * yRange], as
    [handleMouseMove], [handleWheel], [showOrbit] and [handleMandelbrotClick]
    all compute it. *)
Definition pointer_coords (b : Bounds) (rect : DOMRect) (clientX clientY : Q) : Q * Q :=
  let x := clientX - rect_left rect in
  let y := clientY - rect_top rect in
  let xRange := xMax b - xMin b in
  let yRange := yMax b - yMin b in
  (xMin b + (x / rect_width rect) * xRange, yMax b - (y / rect_height rect) * yRange).

(** [handleMouseDown(e)] *)
Definition handleMouseDown (e : MouseEvent) (ex : Explorer) : Explorer :=
  set_drag true (clientX e, clientY e) (Some (juliaBounds ex)) ex.

Inductive CanvasType := JuliaCanvas | MandelbrotCanvas.

(** [handleMouseMove(e, canvasType)]: the panning part ([rect] is the
    rectangle of the canvas the pointer is on).  [None] is the [TypeError]
    of reading [this.dragBoundsStart.xMin] while [dragBoundsStart] is
    [null]. *)
Definition handleMouseMove (rect : DOMRect) (e : MouseEvent) (canvasType : CanvasType)
    (ex : Explorer) : option Explorer :=
  let bounds := match canvasType with
                | JuliaCanvas => juliaBounds ex
                | MandelbrotCanvas => mandelbrotBounds ex
                end in
  let xRange := xMax bounds - xMin bounds in
  let yRange := yMax bounds - yMin bounds in
  (* Handle panning *)
  match canvasType, isDragging ex with
  | JuliaCanvas, true =>
      let dx := (clientX e - fst (dragStart ex)) / rect_width rect in
      let dy := (clientY e - snd (dragStart ex)) / rect_height rect in
      let xShift := dx * xRange in
      let yShift := dy * yRange in
      match dragBoundsStart ex with
      | Some start =>
          Some (set_juliaBounds
                  {| xMin := xMin start - xShift; xMax := xMax start - xShift;
                     yMin := yMin start + yShift; yMax := yMax start + yShift |} ex)
      | None => None
      end
  | _, _ => Some ex
  end.

(** A run of [mousemove] events over the Julia canvas. *)
Fixpoint mouse_moves (rect : DOMRect) (es : list MouseEvent) (ex : Explorer)
    : option Explorer :=
  match es with
  | [] => Some ex
  | e :: es' =>
      match handleMouseMove rect e JuliaCanvas ex with
      | Some ex' => mouse_moves rect es' ex'
      | None => None
      end
  end.

(** [handleMouseUp()] *)
Definition handleMouseUp (ex : Explorer) : Explorer :=
  if isDragging ex
  then render (set_drag false (dragStart ex) (dragBoundsStart ex) ex)
  else ex.

(** [handleMandelbrotClick(e)] *)
Definition handleMandelbrotClick (rect : DOMRect) (e : MouseEvent) (ex : Explorer) : Explorer :=
  let x := clientX e - rect_left rect in
  let y := clientY e - rect_top rect in
  let b := mandelbrotBounds ex in
  let xRange := xMax b - xMin b in
  let yRange := yMax b - yMin b in
  let p := {| cReal := xMin b + (x / rect_width rect) * xRange;
              cImag := yMax b - (y / rect_height rect) * yRange;
              maxIter := maxIter (params ex);
              fractalType := fractalType (params ex) |} in
  render (set_params p ex).

(** [updateCrosshair()]: [(px, py)], the [left] and [top] of the crosshair. *)
Definition updateCrosshair (rect : DOMRect) (ex : Explorer) : Q * Q :=
  let b := mandelbrotBounds ex in
  let xRange := xMax b - xMin b in
  let yRange := yMax b - yMin b in
  let px := ((cReal (params ex) - xMin b) / xRange) * rect_width rect in
  let py := ((yMax b - cImag (params ex)) / yRange) * rect_height rect in
  (px, py).

(** [setupCanvas()]: the size [(width, height)] in CSS pixels and the state
    with the Julia bounds rebuilt around the origin; [rect] is the
    container's rectangle. *)
Definition setupCanvas (rect : DOMRect) (ex : Explorer) : (Z * Z) * Explorer :=
  let width := if splitView ex then Qfloor (rect_width rect / 2)
               else Qfloor (rect_width rect) in
  let height := Qfloor (rect_height rect) in
  (* Adjust bounds to maintain aspect ratio *)
  let aspect := inject_Z width / inject_Z height in
  let b :=
    if Qlt_le_dec 1 aspect then
      {| xMin := -2 * aspect / zoom ex; xMax := 2 * aspect / zoom ex;
         yMin := -2 / zoom ex; yMax := 2 / zoom ex |}
    else
      {| xMin := -2 / zoom ex; xMax := 2 / zoom ex;
         yMin := -2 / aspect / zoom ex; yMax := 2 / aspect / zoom ex |} in
  ((width, height), set_juliaBounds b ex).

(** [resetView()] *)
Definition resetView (rect : DOMRect) (ex : Explorer) : Explorer :=
  snd (setupCanvas rect (set_zoom 1 ex)).

(** ** The escape-time loop of [worker.js] *)

Inductive WorkerType := WJulia | WBurningJulia | WMandelbrot | WBurningMandelbrot.

Definition is_burning (t : WorkerType) : bool :=
  match t with WBurningJulia | WBurningMandelbrot => true | _ => false end.

(** The [while (zx2 + zy2 < 4 && iter < maxIter)] loop with [n = maxIter -
    iter] iterations left: the final [iter]. *)
Fixpoint escape_loop (n : nat) (t : WorkerType) (cx cy zx zy zx2 zy2 : Q) (iter : Z) : Z :=
  match n with
  | O => iter
  | S n' =>
      if Qlt_le_dec (zx2 + zy2) 4 then
        (* Burning Ship: z = (|Re(z)| + i|Im(z)|)² + c *)
        let zx := if is_burning t then Qabs zx else zx in
        let zy := if is_burning t then Qabs zy else zy in
        (* z = z² + c *)
        let xtemp := zx2 - zy2 + cx in
        let zy := 2 * zx * zy + cy in
        let zx := xtemp in
        escape_loop n' t cx cy zx zy (zx * zx) (zy * zy) (iter + 1)
      else iter
  end.

(** [iter] of the pixel whose point is [(x0, y0)]. *)
Definition pixel_iter (t : WorkerType) (maxIt : Z) (cRe cIm x0 y0 : Q) : Z :=
  let '(zx, zy, cx, cy) :=
    match t with
    | WJulia | WBurningJulia =>
        (* Julia set: z starts at the point, c is fixed *)
        (x0, y0, cRe, cIm)
    | _ =>
        (* Mandelbrot: z starts at 0, c is the point *)
        (0, 0, x0, y0)
    end in
  escape_loop (Z.to_nat maxIt) t cx cy zx zy (zx * zx) (zy * zy) 0.

(** The point of pixel [(px, py)]: [x0 = xMin + px * xScale],
    [y0 = yMax - py * yScale]. *)
Definition pixel_point (b : Bounds) (width height : Q) (px py : Q) : Q * Q :=
  let xScale := (xMax b - xMin b) / width in
  let yScale := (yMax b - yMin b) / height in
  (xMin b + px * xScale, yMax b - py * yScale).

(** ** [hslToRgb] of [worker.js] *)

(** The [%] of JavaScript on numbers: the remainder has the sign of the
    dividend. *)
Definition Qtrunc (q : Q) : Z :=
  if Qlt_le_dec q 0 then Qceiling q else Qfloor q.

Definition js_rem (a b : Q) : Q := a - b * inject_Z (Qtrunc (a / b)).

(** [hslToRgb(h, s, l)]: [[r, g, b]] *)
Definition hslToRgb (h s l : Q) : Z * Z * Z :=
  let s := s / 100 in
  let l := l / 100 in
  let c := (1 - Qabs (2 * l - 1)) * s in
  let x := c * (1 - Qabs (js_rem (h / 60) 2 - 1)) in
  let m := l - c / 2 in
  let '(r, g, b) :=
    if Qlt_le_dec h 60 then (c, x, 0)
    else if Qlt_le_dec h 120 then (x, c, 0)
    else if Qlt_le_dec h 180 then (0, c, x)
    else if Qlt_le_dec h 240 then (0, x, c)
    else if Qlt_le_dec h 300 then (x, 0, c)
    else (c, 0, x) in
  (Qfloor ((r + m) * 255), Qfloor ((g + m) * 255), Qfloor ((b + m) * 255)).

(** A point and its successors follow [z -> z² + c], and no point before the
    last has left the disc of radius 2. *)
Fixpoint orbit_chain (cRe cIm : Q) (z : Point) (rest : list Point) : Prop :=
  match rest with
  | [] => True
  | p :: rest' =>
      real z * real z + imag z * imag z <= 4
      /\ p = {| real := real z * real z - imag z * imag z + cRe;
                imag := 2 * real z * imag z + cIm |}
      /\ orbit_chain cRe cIm p rest'
  end.

End Julia.
(** * Properties *)

(** Side conditions on concrete grids: a cell index is inside the grid. *)
Ltac in_grid := vm_compute; split; congruence.

(** ** Arithmetic of the builtins *)

Lemma clamp_bounds (x : Q) : 0 <= clamp x 0 1 /\ clamp x 0 1 <= 1.
Proof.
  unfold clamp. split.
  - apply Q.min_glb; [ apply Q.le_max_r | discriminate ].
  - apply Q.le_min_r.
Qed.

Lemma clamp_comp (x y : Q) : x == y -> clamp x 0 1 == clamp y 0 1.
Proof. intros H. unfold clamp. now rewrite H. Qed.

Lemma Qfloor_half (z : Z) : Qfloor (inject_Z z + 0.5) = z.
Proof.
  pose proof (Qfloor_le (inject_Z z + 0.5)) as Hlo.
  pose proof (Qlt_floor (inject_Z z + 0.5)) as Hhi.
  set (f := Qfloor (inject_Z z + 0.5)) in *.
  assert (H1 : inject_Z f < inject_Z (z + 1)).
  { rewrite inject_Z_plus. eapply Qle_lt_trans; [ exact Hlo | ].
    change (inject_Z 1) with 1. lra. }
  assert (H2 : inject_Z z < inject_Z (f + 1)).
  { eapply Qle_lt_trans; [ | exact Hhi ]. lra. }
  rewrite <- Zlt_Qlt in H1, H2. lia.
Qed.

Lemma inject_Z_pos_neq (res : Z) : (0 < res)%Z -> ~ inject_Z res == 0.
Proof.
  intros H E. rewrite Zlt_Qlt in H. change (inject_Z 0) with 0 in H. lra.
Qed.

(** A fragment shaded at the centre of pixel [(x, y)] and sampling [dx]
    texels to the right and [dy] texels up reads texel [(x + dx, y + dy)]
    of the wrapped grid. *)
Lemma texture2D_offset (res : Z) (tex : texture) (x y dx dy : Z) (qx qy : Q) :
  (0 < res)%Z ->
  qx * inject_Z res == inject_Z dx ->
  qy * inject_Z res == inject_Z dy ->
  texture2D res tex (vec2_add (v_texCoord_at res x y) (Vec2 qx qy))
  = texel res tex (x + dx) (y + dy).
Proof.
  intros Hres Hx Hy. unfold texture2D, vec2_add, v_texCoord_at. cbn [vx vy].
  pose proof (inject_Z_pos_neq res Hres) as Hne.
  assert (Ex : ((inject_Z x + 0.5) / inject_Z res + qx) * inject_Z res
               == inject_Z (x + dx) + 0.5).
  { rewrite inject_Z_plus, <- Hx. field. exact Hne. }
  assert (Ey : ((inject_Z y + 0.5) / inject_Z res + qy) * inject_Z res
               == inject_Z (y + dy) + 0.5).
  { rewrite inject_Z_plus, <- Hy. field. exact Hne. }
  rewrite (Qfloor_comp _ _ Ex), (Qfloor_comp _ _ Ey), !Qfloor_half.
  reflexivity.
Qed.

Lemma texture2D_center (res : Z) (tex : texture) (x y : Z) :
  (0 < res)%Z ->
  texture2D res tex (v_texCoord_at res x y) = texel res tex x y.
Proof.
  intros Hres. unfold texture2D, v_texCoord_at. cbn [vx vy].
  pose proof (inject_Z_pos_neq res Hres) as Hne.
  assert (Ex : (inject_Z x + 0.5) / inject_Z res * inject_Z res == inject_Z x + 0.5)
    by (field; exact Hne).
  assert (Ey : (inject_Z y + 0.5) / inject_Z res * inject_Z res == inject_Z y + 0.5)
    by (field; exact Hne).
  rewrite (Qfloor_comp _ _ Ex), (Qfloor_comp _ _ Ey), !Qfloor_half.
  reflexivity.
Qed.

(** ** The render target of a pass *)

Lemma drawArrays_length (res : Z) (main : vec2 -> vec4) :
  length (drawArrays res main) = Z.to_nat (res * res).
Proof. unfold drawArrays. now rewrite length_map, length_seq. Qed.

Lemma drawArrays_texel (res : Z) (main : vec2 -> vec4) (x y : Z) :
  (0 <= x < res)%Z -> (0 <= y < res)%Z ->
  texel res (drawArrays res main) x y = main (v_texCoord_at res x y).
Proof.
  intros Hx Hy. unfold texel, drawArrays.
  rewrite (Z.mod_small x res), (Z.mod_small y res) by lia.
  assert (Hk : (Z.to_nat (y * res + x) < Z.to_nat (res * res))%nat) by nia.
  rewrite (nth_indep _ texel_default (main (v_texCoord_at res (0 mod res) (0 / res))))
    by (rewrite length_map, length_seq; exact Hk).
  rewrite (map_nth (fun k => main (v_texCoord_at res (Z.of_nat k mod res) (Z.of_nat k / res)))
             (seq 0 (Z.to_nat (res * res))) 0%nat).
  rewrite seq_nth by exact Hk. cbn [Nat.add].
  rewrite Z2Nat.id by nia.
  replace ((y * res + x) mod res)%Z with x
    by (rewrite Z.add_comm, Z.mod_add, Z.mod_small; lia).
  replace ((y * res + x) / res)%Z with y
    by (rewrite Z.add_comm, Z.div_add, Z.div_small; lia).
  reflexivity.
Qed.

Lemma texture_at_write_same (i : nat) (t : texture) (st : TuringSimulation) :
  texture_at (write_texture i t st) i = t.
Proof. destruct i; reflexivity. Qed.

Lemma texture_at_write_other (c : nat) (t : texture) (st : TuringSimulation) :
  texture_at (write_texture (1 - c) t st) c = texture_at st c.
Proof. destruct c as [|[|c]]; reflexivity. Qed.

Lemma currentTexture_write (i : nat) (t : texture) (st : TuringSimulation) :
  currentTexture (write_texture i t st) = currentTexture st.
Proof. destruct i; reflexivity. Qed.

(** ** The clamp invariant of the stepper *)

Lemma simulation_main_in_unit res u_state U v : in_unit (simulation_main res u_state U v).
Proof.
  unfold simulation_main, in_unit. cbn [cr cg].
  split; apply clamp_bounds.
Qed.

Lemma drawArrays_Forall (P : vec4 -> Prop) res main :
  (forall v, P (main v)) -> Forall P (drawArrays res main).
Proof.
  intros H. unfold drawArrays. apply Forall_forall. intros c Hc.
  apply in_map_iff in Hc. destruct Hc as (k & <- & _). apply H.
Qed.

Lemma simulate_iteration_current (st : TuringSimulation) :
  current_field (simulate_iteration st)
  = drawArrays (resolution st)
      (simulation_main (resolution st) (current_field st)
         {| u_resolution := Vec2 (inject_Z (resolution st)) (inject_Z (resolution st));
            u_feed := feedRate (params st);
            u_kill := killRate (params st);
            u_diffusionA := diffusionA (params st);
            u_diffusionB := diffusionB (params st);
            u_dt := 1.0;
            u_system := 0 |}).
Proof.
  unfold current_field, simulate_iteration. cbv zeta.
  change (texture_at (set_currentTexture ?c ?s) ?i) with (texture_at s i).
  cbn [currentTexture set_currentTexture].
  rewrite currentTexture_write. apply texture_at_write_same.
Qed.

Lemma simulate_iteration_in_unit (st : TuringSimulation) :
  field_in_unit (current_field (simulate_iteration st)).
Proof.
  rewrite simulate_iteration_current.
  apply drawArrays_Forall. intros v. apply simulation_main_in_unit.
Qed.

Lemma iter_simulate_iteration_in_unit (st : TuringSimulation) (n : nat) :
  field_in_unit (current_field st) ->
  field_in_unit (current_field (Nat.iter n simulate_iteration st)).
Proof.
  intros H0. destruct n as [|n].
  - exact H0.
  - cbn [Nat.iter nat_rect]. apply simulate_iteration_in_unit.
Qed.

(** C1.  Whatever the parameters [(F, K, diffusionA, diffusionB)], if every
    cell of the current buffer has A and B in [[0,1]] (as every seeded field
    has, [seedPattern_in_unit]), then after any number [n] of stepper
    sub-steps every cell of the current buffer has A and B in [[0,1]]: each
    sub-step writes [clamp(newA, 0, 1)] and [clamp(newB, 0, 1)]. *)
Theorem clamp_invariant (st : TuringSimulation) (n : nat) :
  field_in_unit (current_field st) ->
  field_in_unit (current_field (Nat.iter n simulate_iteration st)).
Proof.
  intros H0. destruct n as [|n].
  - exact H0.
  - cbn [Nat.iter nat_rect]. apply simulate_iteration_in_unit.
Qed.

(** ** The stepper sub-step against the specification's formulas *)

Lemma clamp_clamp01 (x : Q) : clamp x 0 1 == Spec.clamp01 x.
Proof.
  unfold clamp, Spec.clamp01.
  destruct (Qlt_le_dec x 0) as [H|H].
  - rewrite (Q.max_r x 0) by lra. apply Q.min_l. lra.
  - rewrite (Q.max_l x 0) by lra.
    destruct (Qlt_le_dec 1 x) as [H1|H1].
    + apply Q.min_r. lra.
    + apply Q.min_l. exact H1.
Qed.

Lemma unit_inv_res (res : Z) (k : Z) (q : Q) :
  (0 < res)%Z -> q == inject_Z k / inject_Z res -> q * inject_Z res == inject_Z k.
Proof.
  intros Hres ->. field. now apply inject_Z_pos_neq.
Qed.

(** The nine samples of [simulationSource] at the fragment of cell [(x, y)]
    are the cell and its eight toroidal neighbours. *)
Lemma simulation_main_cell (res : Z) (u_state : texture) (U : SimUniforms) (x y : Z) :
  (0 < res)%Z ->
  u_resolution U = Vec2 (inject_Z res) (inject_Z res) ->
  let c := texel res u_state x y in
  let lapA := Spec.laplacian_at res u_state cr x y in
  let lapB := Spec.laplacian_at res u_state cg x y in
  let out := simulation_main res u_state U (v_texCoord_at res x y) in
  cr out == clamp (cr c + (u_diffusionA U * lapA - cr c * cg c * cg c
                           + u_feed U * (1 - cr c)) * u_dt U) 0 1
  /\ cg out == clamp (cg c + (u_diffusionB U * lapB + cr c * cg c * cg c
                              - (u_kill U + u_feed U) * cg c) * u_dt U) 0 1.
Proof.
  intros Hres HU. cbv zeta. unfold simulation_main. rewrite HU.
  cbn [vec2_inv vx vy].
  pose proof (inject_Z_pos_neq res Hres) as Hne.
  rewrite texture2D_center by exact Hres.
  rewrite (texture2D_offset res u_state x y (-1) 0),
          (texture2D_offset res u_state x y 1 0),
          (texture2D_offset res u_state x y 0 1),
          (texture2D_offset res u_state x y 0 (-1)),
          (texture2D_offset res u_state x y (-1) 1),
          (texture2D_offset res u_state x y 1 1),
          (texture2D_offset res u_state x y (-1) (-1)),
          (texture2D_offset res u_state x y 1 (-1));
    try exact Hres;
    try (apply unit_inv_res; [ exact Hres | ]; cbn [inject_Z]; field; exact Hne).
  rewrite !Z.add_0_r.
  unfold Spec.laplacian_at, Spec.laplacian, vec4_sub, vec4_add, vec4_scale.
  cbn [cr cg]. rewrite !Z.add_0_r.
  split; apply clamp_comp; ring.
Qed.

(** C2.  One stepper sub-step, at every cell [(x, y)] of the grid: with [a],
    [b] the cell's channels in the current buffer, [lapA], [lapB] the
    9-point Laplacians [0.2*(N+S+E+W) + 0.05*(NE+NW+SE+SW) - center] over
    the toroidal neighbourhood, and [da], [db] the Gray-Scott reaction, the
    sub-step writes [clamp01(a + dt*(diffusionA*lapA + da))] and
    [clamp01(b + dt*(diffusionB*lapB + db))] with [dt = 1.0] into the scratch
    buffer, which becomes the current one; the buffer it read is untouched. *)
Theorem stepper_substep (st : TuringSimulation) (x y : Z) :
  (0 <= x < resolution st)%Z -> (0 <= y < resolution st)%Z ->
  let res := resolution st in
  let src := current_field st in
  let st' := simulate_iteration st in
  let a := cr (texel res src x y) in
  let b := cg (texel res src x y) in
  let lapA := Spec.laplacian_at res src cr x y in
  let lapB := Spec.laplacian_at res src cg x y in
  let F := feedRate (params st) in
  let K := killRate (params st) in
  let da := Spec.gray_scott_da a b F in
  let db := Spec.gray_scott_db a b F K in
  let out := texel res (texture_at st' (1 - currentTexture st)) x y in
  cr out == Spec.clamp01 (a + Spec.dt * (diffusionA (params st) * lapA + da))
  /\ cg out == Spec.clamp01 (b + Spec.dt * (diffusionB (params st) * lapB + db))
  /\ currentTexture st' = (1 - currentTexture st)%nat
  /\ texture_at st' (currentTexture st) = src.
Proof.
  intros Hx Hy. cbv zeta.
  assert (Hres : (0 < resolution st)%Z) by lia.
  assert (Hcur : currentTexture (simulate_iteration st) = (1 - currentTexture st)%nat).
  { unfold simulate_iteration. cbn [currentTexture set_currentTexture].
    now rewrite currentTexture_write. }
  assert (Hout : texture_at (simulate_iteration st) (1 - currentTexture st)
                 = current_field (simulate_iteration st)).
  { unfold current_field. now rewrite Hcur. }
  rewrite Hout, simulate_iteration_current, drawArrays_texel by assumption.
  match goal with
  | |- context [simulation_main _ _ ?U _] =>
      destruct (simulation_main_cell (resolution st) (current_field st) U x y Hres eq_refl)
        as [HA HB]
  end.
  cbn [u_diffusionA u_diffusionB u_feed u_kill u_dt] in HA, HB.
  repeat split.
  - rewrite HA, <- clamp_clamp01. apply clamp_comp.
    unfold Spec.gray_scott_da, Spec.dt. ring.
  - rewrite HB, <- clamp_clamp01. apply clamp_comp.
    unfold Spec.gray_scott_db, Spec.dt. ring.
  - exact Hcur.
  - unfold simulate_iteration, current_field.
    change (texture_at (set_currentTexture ?c ?s) ?i) with (texture_at s i).
    apply texture_at_write_other.
Qed.

(** [simulate] runs [ceil(simSpeed * 8)] such sub-steps while the simulation
    is running. *)
Lemma simulate_running (st : TuringSimulation) :
  isRunning st = true ->
  simulate st = Nat.iter (Z.to_nat (Qceiling (simSpeed (params st) * 8))) simulate_iteration st.
Proof. unfold simulate. now intros ->. Qed.

(** ** Pause *)

(** C10.  While the simulation is paused ([isRunning = false]), [simulate]
    runs no sub-step: it returns the state as it is, so both buffers and
    [currentTexture] are unchanged, whatever the field and [simSpeed]. *)
Theorem simulate_paused (st : TuringSimulation) :
  isRunning st = false ->
  simulate st = st
  /\ textures (simulate st) = textures st
  /\ currentTexture (simulate st) = currentTexture st.
Proof.
  intros H. unfold simulate. rewrite H. cbn [negb]. auto.
Qed.

(** ** Seeding *)

Lemma fold_left_invariant {A B : Type} (P : A -> Prop) (f : A -> B -> A) (l : list B) :
  (forall a b, P a -> P (f a b)) -> forall a, P a -> P (fold_left f l a).
Proof.
  intros Hf. induction l as [|b l IH]; intros a Ha; cbn [fold_left].
  - exact Ha.
  - apply IH, Hf, Ha.
Qed.

Lemma data_set_B_in_unit (k : nat) (data : texture) :
  field_in_unit data -> field_in_unit (data_set_B k data).
Proof.
  revert k. induction data as [|c rest IH]; intros k H; cbn [data_set_B].
  - destruct k; constructor.
  - inversion H as [|? ? Hc Hrest]; subst. destruct k as [|k].
    + constructor; [ | exact Hrest ].
      destruct Hc as [HA _]. split; [ exact HA | cbn [cg set_g]; lra ].
    + constructor; [ exact Hc | apply IH, Hrest ].
Qed.

Lemma seed_center_body_in_unit sqrt res acc k :
  field_in_unit (fst acc) -> field_in_unit (fst (seed_center_body sqrt res acc k)).
Proof.
  destruct acc as [data st]. unfold seed_center_body. cbn [fst]. intros H.
  destruct (Qlt_le_dec _ seedRadius); cbn [fst].
  - now apply data_set_B_in_unit.
  - unfold Math_random. destruct (Qlt_le_dec _ 0.001); cbn [fst].
    + now apply data_set_B_in_unit.
    + exact H.
Qed.

Lemma seed_cluster_in_unit res acc :
  field_in_unit (fst acc) -> field_in_unit (fst (seed_cluster res acc)).
Proof.
  destruct acc as [data st]. unfold seed_cluster, Math_random. cbn [fst]. intros H.
  apply fold_left_invariant; [ | exact H ].
  intros a k Ha. unfold seed_cluster_body.
  destruct (Qlt_le_dec _ 100); [ now apply data_set_B_in_unit | exact Ha ].
Qed.

(** Every seeded field has both channels in [[0,1]]: [seedPattern] writes
    only 0.0 and 1.0, into both buffers alike. *)
Lemma seedPattern_in_unit sqrt (st : TuringSimulation) :
  field_in_unit (current_field (seedPattern sqrt st))
  /\ fst (textures (seedPattern sqrt st)) = snd (textures (seedPattern sqrt st)).
Proof.
  unfold seedPattern.
  set (res := resolution st).
  set (acc0 := fold_left _ _ _).
  assert (H0 : field_in_unit (fst acc0)).
  { subst acc0. apply fold_left_invariant.
    - intros a k Ha. now apply seed_center_body_in_unit.
    - cbn [fst]. apply Forall_forall. intros c Hc. apply repeat_spec in Hc. subst c.
      unfold in_unit. cbn [cr cg]. lra. }
  assert (H5 : field_in_unit (fst (Nat.iter 5 (seed_cluster res) acc0))).
  { cbn [Nat.iter nat_rect]. now repeat apply seed_cluster_in_unit. }
  destruct (Nat.iter 5 (seed_cluster res) acc0) as [data st'].
  cbn [fst] in H5. split; [ | reflexivity ].
  unfold current_field, texture_at. cbn [textures set_textures currentTexture fst snd].
  destruct (currentTexture st'); exact H5.
Qed.

(** ** Witnesses on the seeded example grid *)

Lemma clamp_invariant_witness :
  field_in_unit (current_field example_seeded)
  /\ field_in_unit (current_field (Nat.iter 3 simulate_iteration example_seeded)).
Proof.
  assert (H : field_in_unit (current_field example_seeded)).
  { vm_compute. repeat constructor; discriminate. }
  split; [ exact H | apply (clamp_invariant example_seeded 3 H) ].
Defined.

Lemma stepper_substep_witness :
  let st := example_seeded in
  let out := texel 3 (texture_at (simulate_iteration st) 1) 1 1 in
  cr out == 0 /\ cg out == 1 /\ currentTexture (simulate_iteration st) = 1%nat.
Proof.
  cbv zeta.
  destruct (stepper_substep example_seeded 1 1) as (HA & HB & Hc & _);
    [ in_grid | in_grid | ].
  split; [ | split ].
  - eapply Qeq_trans; [ exact HA | vm_compute; reflexivity ].
  - eapply Qeq_trans; [ exact HB | vm_compute; reflexivity ].
  - exact Hc.
Defined.

Lemma simulate_paused_witness :
  isRunning example_paused = false /\ simulate example_paused = example_paused.
Proof.
  split; [ reflexivity | apply (simulate_paused example_paused); reflexivity ].
Defined.

(** ** Parameter domains: which mutations clamp *)

Lemma F_clamp_in_domain (f : Q) : F_domain (Qmax 0 (Qmin 0.1 f)).
Proof.
  split.
  - apply Q.le_max_l.
  - apply Q.max_lub; [ discriminate | apply Q.le_min_l ].
Qed.

Lemma K_clamp_in_domain (k : Q) : K_domain (Qmax 0 (Qmin 0.08 k)).
Proof.
  split.
  - apply Q.le_max_l.
  - apply Q.max_lub; [ discriminate | apply Q.le_min_l ].
Qed.

(** The journey-driven update clamps: after a tick of an active journey the
    parameters are in their domains, whatever the trajectory produced. *)
Lemma updateJourney_in_domain (Math_sin Math_cos : Q -> Q) (dt : Q) (st : TuringSimulation) :
  active (journey st) = true -> journey_type (journey st) <> JNone ->
  params_in_domain (params (updateJourney Math_sin Math_cos dt st)).
Proof.
  intros Ha Ht. unfold updateJourney. rewrite Ha. cbn [negb orb].
  destruct (journey_type (journey st)) eqn:E; try congruence;
    cbn [journey set_journey journey_type with_time]; rewrite ?E.
  1-3: split; [ apply F_clamp_in_domain | apply K_clamp_in_domain ].
  destruct (target (journey (journey_reroll _))) as [[tf tk]|];
    split; [ apply F_clamp_in_domain | apply K_clamp_in_domain
           | apply F_clamp_in_domain | apply K_clamp_in_domain ].
Qed.

Lemma cube_eq (x : Q) : Qpower x 3 == x * x * x.
Proof. simpl. ring. Qed.

Lemma ease_progress_le_1 (e : Easing) (now : Q) : ease_progress e now <= 1.
Proof. apply Q.le_min_l. Qed.

Lemma ease_progress_nonneg (e : Easing) (now : Q) :
  ease_startTime e <= now -> 0 <= ease_progress e now.
Proof.
  intros H. unfold ease_progress. apply Q.min_glb; [ discriminate | ].
  unfold duration. apply Qle_shift_div_l; [ reflexivity | lra ].
Qed.

Lemma ease_eased_le_1 (e : Easing) (now : Q) : ease_eased e now <= 1.
Proof.
  unfold ease_eased. rewrite cube_eq.
  pose proof (ease_progress_le_1 e now) as H.
  set (p := ease_progress e now) in *.
  assert (0 <= (1 - p) * (1 - p)) by nra.
  assert (0 <= (1 - p) * (1 - p) * (1 - p)) by nra.
  lra.
Qed.

Lemma ease_eased_nonneg (e : Easing) (now : Q) :
  ease_startTime e <= now -> 0 <= ease_eased e now.
Proof.
  intros Hn. unfold ease_eased. rewrite cube_eq.
  pose proof (ease_progress_le_1 e now) as H.
  pose proof (ease_progress_nonneg e now Hn) as H0.
  set (p := ease_progress e now) in *.
  assert ((1 - p) * (1 - p) <= 1) by nra.
  assert ((1 - p) * (1 - p) * (1 - p) <= 1) by nra.
  lra.
Qed.

(** The eased transition does not clamp, but it interpolates: between a
    start and a target that are in the domain, every sample is. *)
Lemma ease_sample_in_domain (e : Easing) (now : Q) (st : TuringSimulation) :
  ease_startTime e <= now ->
  F_domain (ease_startF e) -> F_domain (ease_targetF e) ->
  K_domain (ease_startK e) -> K_domain (ease_targetK e) ->
  params_in_domain (params (ease_sample e now st)).
Proof.
  intros Hn [HsF0 HsF1] [HtF0 HtF1] [HsK0 HsK1] [HtK0 HtK1].
  pose proof (ease_eased_le_1 e now) as H1.
  pose proof (ease_eased_nonneg e now Hn) as H0.
  unfold ease_sample, params_in_domain, F_domain, K_domain.
  cbn [params set_params feedRate killRate with_feedRate with_killRate].
  set (t := ease_eased e now) in *.
  repeat split; nra.
Qed.

(** C3.  A manual set stores the raw value: after the feed-rate control
    receives [-1] and the kill-rate control receives [10], the stored
    parameters are [F = -1] and [K = 10], outside their domains [[0, 0.1]]
    and [[0, 0.08]]. *)
Theorem manual_set_stores_raw (st : TuringSimulation) :
  let st' := slider_update SKillRate 10 (slider_update SFeedRate (-1) st) in
  feedRate (params st') = -1
  /\ killRate (params st') = 10
  /\ ~ F_domain (feedRate (params st'))
  /\ ~ K_domain (killRate (params st')).
Proof.
  cbv zeta. cbn [slider_update params set_params feedRate killRate with_feedRate with_killRate].
  repeat split.
  - intros [H _]. apply H. reflexivity.
  - intros [_ H]. apply H. reflexivity.
Qed.

(** ** The model selection and the stepper *)

Lemma simulate_iteration_system (s : System) (st : TuringSimulation) :
  simulate_iteration (systemSelect_change s st)
  = systemSelect_change s (simulate_iteration st).
Proof.
  destruct st as [p v t j r res [t0 t1] c lt cv rnd rc].
  destruct c as [|c]; reflexivity.
Qed.

Lemma iter_simulate_iteration_system (n : nat) (s : System) (st : TuringSimulation) :
  Nat.iter n simulate_iteration (systemSelect_change s st)
  = systemSelect_change s (Nat.iter n simulate_iteration st).
Proof.
  induction n as [|n IH]; cbn [Nat.iter nat_rect].
  - reflexivity.
  - change (nat_rect _ (systemSelect_change s st) (fun _ => simulate_iteration) n)
      with (Nat.iter n simulate_iteration (systemSelect_change s st)).
    rewrite IH. apply simulate_iteration_system.
Qed.

Lemma simulate_system (s : System) (st : TuringSimulation) :
  simulate (systemSelect_change s st) = systemSelect_change s (simulate st).
Proof.
  unfold simulate.
  change (isRunning (systemSelect_change s st)) with (isRunning st).
  change (simSpeed (params (systemSelect_change s st))) with (simSpeed (params st)).
  destruct (negb (isRunning st)); [ reflexivity | apply iter_simulate_iteration_system ].
Qed.

(** C4.  The stepper applies the same reaction term for every selected
    model: from any state, selecting two models [s1] and [s2] and running
    [simulate] leaves the same two buffers and the same current index, so no
    cell values and parameters distinguish two models. *)
Theorem stepper_ignores_system (s1 s2 : System) (st : TuringSimulation) :
  textures (simulate (systemSelect_change s1 st))
  = textures (simulate (systemSelect_change s2 st))
  /\ currentTexture (simulate (systemSelect_change s1 st))
     = currentTexture (simulate (systemSelect_change s2 st)).
Proof.
  rewrite !simulate_system. split; reflexivity.
Qed.

(** ** The eased transition *)

Lemma ease_progress_mono (e : Easing) (t1 t2 : Q) :
  t1 <= t2 -> ease_progress e t1 <= ease_progress e t2.
Proof.
  intros H. unfold ease_progress. apply Q.min_le_compat_l.
  unfold duration, Qdiv. apply Qmult_le_compat_r; [ lra | discriminate ].
Qed.

Lemma ease_eased_mono (e : Easing) (t1 t2 : Q) :
  t1 <= t2 -> ease_eased e t1 <= ease_eased e t2.
Proof.
  intros H. unfold ease_eased. rewrite !cube_eq.
  pose proof (ease_progress_mono e t1 t2 H) as Hm.
  pose proof (ease_progress_le_1 e t1) as H1.
  pose proof (ease_progress_le_1 e t2) as H2.
  set (a := 1 - ease_progress e t1).
  set (b := 1 - ease_progress e t2).
  assert (Hb : 0 <= b) by (subst b; lra).
  assert (Hab : b <= a) by (subst a b; lra).
  assert (Hsq : b * b <= a * a) by nra.
  assert (Hcu : b * b * b <= a * a * a) by nra.
  lra.
Qed.

Lemma ease_progress_complete (e : Easing) (now : Q) :
  ease_startTime e + duration <= now -> ease_progress e now == 1.
Proof.
  intros H. unfold ease_progress. apply Q.min_l.
  unfold duration in *. apply Qle_shift_div_l; [ reflexivity | lra ].
Qed.

Lemma ease_eased_complete (e : Easing) (now : Q) :
  ease_progress e now == 1 -> ease_eased e now == 1.
Proof.
  intros H. unfold ease_eased. rewrite cube_eq, H. ring.
Qed.

Lemma ease_sample_sampled_at (e : Easing) (now : Q) (st : TuringSimulation) :
  sampled_at e now (ease_sample e now st).
Proof. split; reflexivity. Qed.

Lemma ease_trace_sampled (e : Easing) (samples : list Q) (st : TuringSimulation) :
  Forall (fun s => exists now, In now samples /\ sampled_at e now s)
         (ease_trace e samples st).
Proof.
  revert st. induction samples as [|now rest IH]; intros st; cbn [ease_trace].
  - constructor.
  - constructor.
    + exists now. split; [ now left | apply ease_sample_sampled_at ].
    + destruct (Qlt_le_dec (ease_progress e now) 1); [ | constructor ].
      eapply Forall_impl; [ | apply IH ].
      intros s (t & Hin & Hs). exists t. split; [ now right | exact Hs ].
Qed.

Lemma sampled_not_farther (e : Easing) (t1 t2 : Q) (s1 s2 : TuringSimulation) :
  t1 <= t2 -> sampled_at e t1 s1 -> sampled_at e t2 s2 -> not_farther e s1 s2.
Proof.
  intros Ht [HF1 HK1] [HF2 HK2].
  pose proof (ease_eased_mono e t1 t2 Ht) as Hm.
  pose proof (ease_eased_le_1 e t1) as Hl1.
  pose proof (ease_eased_le_1 e t2) as Hl2.
  unfold not_farther. rewrite HF1, HF2, HK1, HK2.
  set (u1 := ease_eased e t1) in *. set (u2 := ease_eased e t2) in *.
  assert (Hgen : forall s t : Q,
             Qabs (t - (s + (t - s) * u2)) <= Qabs (t - (s + (t - s) * u1))).
  { intros s t.
    setoid_replace (t - (s + (t - s) * u2)) with ((t - s) * (1 - u2)) by ring.
    setoid_replace (t - (s + (t - s) * u1)) with ((t - s) * (1 - u1)) by ring.
    rewrite !Qabs_Qmult.
    rewrite (Qabs_pos (1 - u2)) by lra. rewrite (Qabs_pos (1 - u1)) by lra.
    pose proof (Qabs_nonneg (t - s)) as Hn.
    set (q := Qabs (t - s)) in *. nra. }
  split; apply Hgen.
Qed.

Lemma ease_trace_sorted (e : Easing) (samples : list Q) (st : TuringSimulation) :
  StronglySorted Qle samples ->
  StronglySorted (not_farther e) (ease_trace e samples st).
Proof.
  revert st. induction samples as [|now rest IH]; intros st Hs; cbn [ease_trace].
  - constructor.
  - inversion Hs as [|? ? Hrest Hall]; subst. constructor.
    + destruct (Qlt_le_dec (ease_progress e now) 1); [ now apply IH | constructor ].
    + destruct (Qlt_le_dec (ease_progress e now) 1); [ | constructor ].
      pose proof (ease_trace_sampled e rest (ease_sample e now st)) as Htr.
      rewrite Forall_forall in Htr, Hall |- *.
      intros s Hin. destruct (Htr s Hin) as (t & Ht & Hsam).
      eapply sampled_not_farther;
        [ apply (Hall t Ht) | apply ease_sample_sampled_at | exact Hsam ].
Qed.

Lemma last_nonempty_indep {A : Type} (x : A) (l : list A) (d1 d2 : A) :
  last (x :: l) d1 = last (x :: l) d2.
Proof.
  revert x. induction l as [|y l IH]; intros x; [ reflexivity | ].
  change (last (y :: l) d1 = last (y :: l) d2). apply IH.
Qed.

Lemma ease_run_last (e : Easing) (samples : list Q) (st : TuringSimulation) :
  ease_run e samples st = last (ease_trace e samples st) st.
Proof.
  revert st. induction samples as [|now rest IH]; intros st.
  - reflexivity.
  - cbn [ease_run ease_trace].
    destruct (Qlt_le_dec (ease_progress e now) 1).
    + rewrite IH. set (s := ease_sample e now st).
      destruct (ease_trace e rest s) eqn:E; [ reflexivity | ].
      change (last (t :: l) s = last (t :: l) st). apply last_nonempty_indep.
    + reflexivity.
Qed.

Lemma ease_run_complete (e : Easing) (samples : list Q) (st : TuringSimulation) :
  (exists now, In now samples /\ ease_startTime e + duration <= now) ->
  feedRate (params (ease_run e samples st)) == ease_targetF e
  /\ killRate (params (ease_run e samples st)) == ease_targetK e.
Proof.
  revert st. induction samples as [|now rest IH]; intros st (t & Hin & Ht).
  - destruct Hin.
  - cbn [ease_run]. destruct (Qlt_le_dec (ease_progress e now) 1) as [Hlt|Hge].
    + apply IH. destruct Hin as [->|Hin].
      * rewrite (ease_progress_complete e t Ht) in Hlt. lra.
      * exists t. now split.
    + assert (Hp : ease_progress e now == 1)
        by (pose proof (ease_progress_le_1 e now); lra).
      pose proof (ease_eased_complete e now Hp) as He.
      unfold ease_sample.
      cbn [params set_params feedRate killRate with_feedRate with_killRate].
      rewrite He. split; ring.
Qed.

(** C8.  [animateToParams(targetF, targetK)] with its duration of 1000 ms,
    sampled at the non-decreasing clock readings [samples] (one per
    animation frame): if some reading is at least 1000 ms after the start,
    the parameters end equal to the target; every stored sample is
    [start + (target - start) * (1 - (1 - progress)^3)], the eased fraction
    never decreases with time, and along the stored samples neither
    parameter ever moves away from its target. *)
Theorem ease_completes_monotonically (targetF targetK startTime : Q)
    (samples : list Q) (st : TuringSimulation) :
  StronglySorted Qle samples ->
  (exists now, In now samples /\ startTime + duration <= now) ->
  let e := animateToParams_easing targetF targetK startTime st in
  let st' := animateToParams targetF targetK startTime samples st in
  (feedRate (params st') == targetF /\ killRate (params st') == targetK)
  /\ st' = last (ease_trace e samples st) st
  /\ Forall (fun s => exists now, In now samples /\ sampled_at e now s)
            (ease_trace e samples st)
  /\ (forall t1 t2, t1 <= t2 -> ease_eased e t1 <= ease_eased e t2)
  /\ StronglySorted (not_farther e) (ease_trace e samples st).
Proof.
  intros Hs Hex. cbv zeta. unfold animateToParams.
  set (e := animateToParams_easing targetF targetK startTime st).
  split; [ | split; [ | split; [ | split ] ] ].
  - apply (ease_run_complete e samples st Hex).
  - apply ease_run_last.
  - apply ease_trace_sampled.
  - apply ease_eased_mono.
  - now apply ease_trace_sorted.
Qed.

Lemma ease_completes_monotonically_witness :
  let samples := [0; 16; 500; 1000; 1016] in
  let st' := animateToParams 0.06 0.07 0 samples example_params in
  StronglySorted Qle samples
  /\ feedRate (params st') == 0.06 /\ killRate (params st') == 0.07.
Proof.
  cbv zeta.
  assert (Hs : StronglySorted Qle [0; 16; 500; 1000; 1016])
    by (repeat constructor; discriminate).
  assert (Hex : exists now, In now [0; 16; 500; 1000; 1016] /\ 0 + duration <= now)
    by (exists 1000; split; [ cbn; tauto | discriminate ]).
  split; [ exact Hs | ].
  apply (ease_completes_monotonically 0.06 0.07 0 _ example_params Hs Hex).
Defined.

(** ** The colorizer *)

Lemma render_texel (st : TuringSimulation) (x y : Z) :
  (0 <= x < resolution st)%Z -> (0 <= y < resolution st)%Z ->
  texel (resolution st) (canvas (render st)) x y
  = render_main (resolution st) (current_field st) (render_uniforms st)
      (v_texCoord_at (resolution st) x y).
Proof.
  intros Hx Hy. unfold render. cbn [canvas set_canvas].
  now rewrite drawArrays_texel.
Qed.

(** C9 (as the code has it).  [render] reads channel B of the current buffer
    only and shows, at every cell, the mix of the two endpoint colours by
    [clamp01(((value - 0.5)*contrast + 0.5) * brightness)]: the clamp comes
    after the multiplication by the brightness.  It writes the canvas and
    leaves both buffers, [currentTexture] and the parameters as they were. *)
Theorem colorizer_clamps_last (st : TuringSimulation) (x y : Z) :
  (0 <= x < resolution st)%Z -> (0 <= y < resolution st)%Z ->
  let res := resolution st in
  let value := cg (texel res (current_field st) x y) in
  let value' :=
    Spec.clamp01 (((value - 0.5) * contrast (visual st) + 0.5) * brightness (visual st)) in
  let U := render_uniforms st in
  let px := texel res (canvas (render st)) x y in
  (cr px == mix (c1 (u_color1 U)) (c1 (u_color2 U)) value'
   /\ cg px == mix (c2 (u_color1 U)) (c2 (u_color2 U)) value'
   /\ cb px == mix (c3 (u_color1 U)) (c3 (u_color2 U)) value')
  /\ textures (render st) = textures st
  /\ currentTexture (render st) = currentTexture st
  /\ params (render st) = params st.
Proof.
  intros Hx Hy. cbv zeta. rewrite render_texel by assumption.
  unfold render_main. rewrite texture2D_center by lia.
  cbn [cr cg cb mix3 c1 c2 c3].
  split; [ | repeat split ].
  unfold mix. rewrite <- !clamp_clamp01.
  cbn [render_uniforms u_contrast u_brightness u_color1 u_color2].
  repeat split; reflexivity.
Qed.

Lemma colorizer_clamps_last_witness :
  let px := texel 3 (canvas (render example_visual)) 0 0 in
  ((0 <= 0 < resolution example_visual)%Z)
  /\ cr px == 0.75 /\ cg px == 0.75 /\ cb px == 0.75.
Proof.
  cbv zeta.
  assert (H0 : (0 <= 0 < resolution example_visual)%Z) by in_grid.
  split; [ exact H0 | ].
  destruct (colorizer_clamps_last example_visual 0 0 H0 H0) as ((Hr & Hg & Hb) & _).
  split; [ | split ].
  - eapply Qeq_trans; [ exact Hr | vm_compute; reflexivity ].
  - eapply Qeq_trans; [ exact Hg | vm_compute; reflexivity ].
  - eapply Qeq_trans; [ exact Hb | vm_compute; reflexivity ].
Defined.

(** C9 (as the specification words it) fails: with contrast 2 and brightness
    1/2 a cell with B = 1 is shown at 0.75, not at
    [clamp01((1 - 0.5)*2 + 0.5) * 0.5 = 0.5]. *)
Lemma colorizer_claim_counterexample : ~ colorizer_claim example_visual.
Proof.
  intros H.
  destruct (H 0%Z 0%Z) as [Hr _]; try in_grid.
  vm_compute in Hr. discriminate Hr.
Qed.

(** ** Forcing: buffers *)

(** The list [stamp_offsets radius] holds the values of the loop
    [for (let d = -radius; d <= radius; d++)]: they stay within the bounds,
    and every [-radius + i] within the bounds is among them. *)
Lemma stamp_offsets_bound (radius d : Q) :
  In d (stamp_offsets radius) -> - radius <= d /\ d <= radius.
Proof.
  unfold stamp_offsets. intros H. apply in_map_iff in H.
  destruct H as (i & <- & Hi). apply in_seq in Hi. destruct Hi as [_ Hi].
  cbn [Nat.add] in Hi.
  assert (Hz : (Z.of_nat i <= Qfloor (2 * radius))%Z) by lia.
  rewrite Zle_Qle in Hz. pose proof (Qfloor_le (2 * radius)) as Hf.
  assert (H0 : 0 <= inject_Z (Z.of_nat i))
    by (change 0 with (inject_Z 0); rewrite <- Zle_Qle; lia).
  split; lra.
Qed.

Lemma stamp_offsets_complete (radius : Q) (i : nat) :
  - radius + inject_Z (Z.of_nat i) <= radius ->
  In (- radius + inject_Z (Z.of_nat i)) (stamp_offsets radius).
Proof.
  intros H. unfold stamp_offsets.
  apply (in_map (fun i => - radius + inject_Z (Z.of_nat i))).
  apply in_seq. split; [ lia | ]. cbn [Nat.add].
  assert (Hi : inject_Z (Z.of_nat i) < inject_Z (Qfloor (2 * radius) + 1)).
  { eapply Qle_lt_trans; [ | apply Qlt_floor ]. lra. }
  rewrite <- Zlt_Qlt in Hi. lia.
Qed.

Lemma applyBrush_current (sqrt : Q -> Q) (mx my : Q) (st : TuringSimulation) :
  current_field (applyBrush sqrt mx my st)
  = drawArrays (resolution st)
      (brush_main sqrt (resolution st) (current_field st) (brush_uniforms mx my st)).
Proof.
  unfold current_field, applyBrush. cbv zeta.
  change (texture_at (set_currentTexture ?c ?s) ?i) with (texture_at s i).
  cbn [currentTexture set_currentTexture].
  rewrite currentTexture_write. apply texture_at_write_same.
Qed.

Lemma applyBrush_ping_pong (sqrt : Q -> Q) (mx my : Q) (st : TuringSimulation) :
  ping_pong (applyBrush sqrt mx my) st.
Proof.
  unfold ping_pong, applyBrush. cbv zeta. split.
  - cbn [currentTexture set_currentTexture]. now rewrite currentTexture_write.
  - change (texture_at (set_currentTexture ?c ?s) ?i) with (texture_at s i).
    apply texture_at_write_other.
Qed.

Lemma simulate_iteration_ping_pong (st : TuringSimulation) :
  ping_pong simulate_iteration st.
Proof.
  unfold ping_pong, simulate_iteration. cbv zeta. split.
  - cbn [currentTexture set_currentTexture]. now rewrite currentTexture_write.
  - change (texture_at (set_currentTexture ?c ?s) ?i) with (texture_at s i).
    apply texture_at_write_other.
Qed.

Lemma texture_at_write_scratch (c : nat) (t : texture) (st : TuringSimulation) :
  texture_at (write_texture c t st) (1 - c) = texture_at st (1 - c).
Proof. destruct c as [|[|c]]; reflexivity. Qed.

(** C6 (as the code has it).  The brush follows the ping-pong discipline of
    the stepper: it reads the current buffer, writes the whole brushed field
    into the scratch buffer and flips [currentTexture].  The stamp does not:
    it reads the current buffer back, sets the disc on that copy and uploads
    it into the current buffer itself, with no flip and the scratch buffer
    untouched.  After either, the current buffer holds the whole result. *)
Theorem forcing_buffers (sqrt : Q -> Q) (mx my : Q) (st : TuringSimulation) :
  (ping_pong (applyBrush sqrt mx my) st
   /\ current_field (applyBrush sqrt mx my st)
      = drawArrays (resolution st)
          (brush_main sqrt (resolution st) (current_field st) (brush_uniforms mx my st)))
  /\ (currentTexture (applyStamp mx my st) = currentTexture st
      /\ scratch_field (applyStamp mx my st) = scratch_field st
      /\ current_field (applyStamp mx my st)
         = stamp_data (resolution st) mx my (size (tool st)) (current_field st)).
Proof.
  split; [ split | split; [ | split ] ].
  - apply applyBrush_ping_pong.
  - apply applyBrush_current.
  - unfold applyStamp. apply currentTexture_write.
  - unfold scratch_field, applyStamp. rewrite currentTexture_write.
    apply texture_at_write_scratch.
  - unfold current_field, applyStamp. rewrite currentTexture_write.
    apply texture_at_write_same.
Qed.

(** C6 (as the specification words it) fails for the stamp: on the seeded
    example it leaves [currentTexture] at 0 instead of flipping it. *)
Lemma stamp_ping_pong_counterexample :
  ~ ping_pong (applyStamp 1.5 1.5) (example_tool Stamp ChemB 1 1).
Proof.
  intros [H _]. vm_compute in H. discriminate H.
Qed.

(** ** Forcing: the brush at one cell *)

Lemma applyBrush_texel (sqrt : Q -> Q) (mx my : Q) (st : TuringSimulation) (x y : Z) :
  (0 <= x < resolution st)%Z -> (0 <= y < resolution st)%Z ->
  let res := resolution st in
  let c := texel res (current_field st) x y in
  let dist := distance sqrt (cell_pos res x y) (Vec2 mx (inject_Z res - my)) in
  let falloff := Spec.falloff dist (size (tool st)) (strength (tool st)) in
  texel res (current_field (applyBrush sqrt mx my st)) x y
  = if Qlt_le_dec dist (size (tool st)) then
      match chemical (tool st) with
      | ChemA => set_g c (Qmax 0 (cg c - falloff))
      | ChemB => set_g c (Qmin 1 (cg c + falloff))
      end
    else c.
Proof.
  intros Hx Hy. cbv zeta.
  rewrite applyBrush_current, drawArrays_texel by assumption.
  unfold brush_main. rewrite texture2D_center by lia.
  cbn [brush_uniforms ub_resolution u_brushPos u_brushSize u_chemical].
  change (vec2_mul (v_texCoord_at (resolution st) x y)
            (Vec2 (inject_Z (resolution st)) (inject_Z (resolution st))))
    with (cell_pos (resolution st) x y).
  destruct (Qlt_le_dec _ (size (tool st))); [ | reflexivity ].
  destruct (chemical (tool st)); reflexivity.
Qed.

(** The fragment of cell [(x, y)] sits at the centre of the cell. *)
Lemma cell_pos_center (res x y : Z) :
  (0 < res)%Z ->
  vx (cell_pos res x y) == inject_Z x + 0.5 /\ vy (cell_pos res x y) == inject_Z y + 0.5.
Proof.
  intros Hres. pose proof (inject_Z_pos_neq res Hres) as Hne.
  unfold cell_pos, vec2_mul, v_texCoord_at. cbn [vx vy].
  split; field; exact Hne.
Qed.

Lemma Qmin_1_clamp01 (v : Q) : 0 <= v -> Qmin 1 v == Spec.clamp01 v.
Proof.
  intros H. unfold Spec.clamp01.
  destruct (Qlt_le_dec v 0); [ lra | ].
  destruct (Qlt_le_dec 1 v); [ apply Q.min_l; lra | apply Q.min_r; lra ].
Qed.

Lemma Qmax_0_clamp01 (v : Q) : v <= 1 -> Qmax 0 v == Spec.clamp01 v.
Proof.
  intros H. unfold Spec.clamp01.
  destruct (Qlt_le_dec v 0); [ apply Q.max_l; lra | ].
  destruct (Qlt_le_dec 1 v); [ rewrite Q.max_r; lra | apply Q.max_r; lra ].
Qed.

Lemma falloff_nonneg (dist radius strength : Q) :
  0 <= strength -> 0 <= Spec.falloff dist radius strength.
Proof.
  intros H. unfold Spec.falloff. set (u := 1 - dist / radius).
  assert (0 <= u * u) by nra. nra.
Qed.

(** C5 (as the code has it).  [applyBrush(mx, my)] at every cell [(x, y)],
    with [dist] the plain Euclidean distance from the cell's centre to the
    brush position [(mx, resolution - my)] (no wrap-around) and
    [falloff = (1 - dist/size)^2 * strength]: when [dist < size], channel B
    becomes [min(1, B + falloff)] if chemical B is selected and
    [max(0, B - falloff)] if chemical A is selected, which for a field in
    [[0,1]] and a non-negative strength is [clamp01(B + falloff)] and
    [clamp01(B - falloff)]; channel A and the other components stay; when
    [dist >= size] the cell is unchanged. *)
Theorem brush_cell (sqrt : Q -> Q) (mx my : Q) (st : TuringSimulation) (x y : Z) :
  (0 <= x < resolution st)%Z -> (0 <= y < resolution st)%Z ->
  let res := resolution st in
  let c := texel res (current_field st) x y in
  let c' := texel res (current_field (applyBrush sqrt mx my st)) x y in
  let dist := distance sqrt (cell_pos res x y) (Vec2 mx (inject_Z res - my)) in
  let falloff := Spec.falloff dist (size (tool st)) (strength (tool st)) in
  (dist < size (tool st) ->
     cg c' = match chemical (tool st) with
             | ChemA => Qmax 0 (cg c - falloff)
             | ChemB => Qmin 1 (cg c + falloff)
             end
     /\ (0 <= strength (tool st) -> in_unit c ->
         cg c' == match chemical (tool st) with
                  | ChemA => Spec.clamp01 (cg c - falloff)
                  | ChemB => Spec.clamp01 (cg c + falloff)
                  end)
     /\ cr c' = cr c /\ cb c' = cb c /\ ca c' = ca c)
  /\ (size (tool st) <= dist -> c' = c).
Proof.
  intros Hx Hy. cbv zeta. rewrite applyBrush_texel by assumption. cbv zeta.
  destruct (Qlt_le_dec _ (size (tool st))) as [Hlt|Hge].
  - split; [ intros _ | intros H; lra ].
    destruct (chemical (tool st)); cbn [set_g cr cg cb ca];
      (split; [ reflexivity | split; [ | repeat split ] ]);
      intros Hs [_ [Hb0 Hb1]];
      pose proof (falloff_nonneg
                    (distance sqrt (cell_pos (resolution st) x y)
                       (Vec2 mx (inject_Z (resolution st) - my)))
                    (size (tool st)) (strength (tool st)) Hs) as Hf.
    + apply Qmax_0_clamp01. lra.
    + apply Qmin_1_clamp01. lra.
  - split; [ intros H; lra | reflexivity ].
Qed.

Lemma brush_cell_witness :
  let res := resolution example_blank in
  let c' := texel res (current_field (applyBrush sqrt_fx 1.5 1.5 example_blank)) 1 1 in
  (0 <= 1 < res)%Z /\ cg c' == 1 /\ cr c' == 0.
Proof.
  cbv zeta.
  assert (H1 : (0 <= 1 < resolution example_blank)%Z) by in_grid.
  split; [ exact H1 | ].
  destruct (brush_cell sqrt_fx 1.5 1.5 example_blank 1 1 H1 H1) as [Hin _].
  destruct Hin as (Hg & _ & Hr & _); [ vm_compute; reflexivity | ].
  split.
  - rewrite Hg. vm_compute. reflexivity.
  - rewrite Hr. vm_compute. reflexivity.
Defined.

(** C5 (as the specification words it) fails twice.  With chemical A
    selected the brush changes channel B, the channel that is not selected:
    on the seeded example the centre cell goes from B = 1 to B = 1/2.  And
    the distance does not wrap: on a [4 * 4] grid with the brush at
    [(3.5, 0.5)] and radius 2, the cell at [(0.5, 0.5)] is at distance 1 on
    the torus but 3 in the plane, and keeps its B = 1/2. *)
Lemma applyForce_claim_counterexample :
  ~ applyForce_claim sqrt_fx 1.5 1.5 (example_tool Brush ChemA 1 (1 # 2))
  /\ ~ applyForce_claim sqrt_fx 3.5 3.5 example_half.
Proof.
  split; intros H.
  - specialize (H 1%Z 1%Z). vm_compute in H.
    destruct H as [_ Hg]; try (split; congruence); try reflexivity.
    discriminate Hg.
  - specialize (H 0%Z 0%Z). vm_compute in H.
    destruct H as [[Hg|Hg] _]; try (split; congruence); try reflexivity;
      discriminate Hg.
Qed.

(** ** Forcing: the profile of the brush *)

Lemma falloff_strictly_decreasing (d1 d2 radius strength : Q) :
  0 < strength -> 0 <= d1 -> d1 < d2 -> d2 < radius ->
  Spec.falloff d2 radius strength < Spec.falloff d1 radius strength.
Proof.
  intros Hs H0 H12 H2r.
  assert (Hr : 0 < radius) by lra.
  assert (Hi : 0 < / radius) by now apply Qinv_lt_0_compat.
  assert (Hd2 : d2 / radius < 1).
  { apply Qlt_shift_div_r; [ exact Hr | lra ]. }
  assert (Hd12 : d1 / radius < d2 / radius).
  { unfold Qdiv. apply Qmult_lt_compat_r; assumption. }
  unfold Spec.falloff.
  set (u1 := 1 - d1 / radius). set (u2 := 1 - d2 / radius).
  assert (Hu2 : 0 < u2) by (subst u2; lra).
  assert (Hu : u2 < u1) by (subst u1 u2; lra).
  assert (Hsq : u2 * u2 < u1 * u1) by nra.
  nra.
Qed.

Lemma falloff_at_center (dist radius strength : Q) :
  dist == 0 -> strength == 1 -> Spec.falloff dist radius strength == 1.
Proof.
  intros Hd Hs. unfold Spec.falloff, Qdiv. rewrite Hd, Hs. ring.
Qed.

(** C7.  The brush on chemical B with strength 1 and a positive radius, put
    down by [applyBrush(mx, my)]: a cell whose centre is the brush position
    (distance 0) gets B = 1.0, as does every cell where B plus the amount
    reaches 1 (the clamp); every cell nearer than the radius gets
    [min(1, B + amount)] where the amount added, [(1 - dist/size)^2],
    strictly decreases as the distance grows up to the radius; every cell at
    a distance greater than or equal to the radius is unchanged. *)
Theorem brush_profile (sqrt : Q -> Q) (mx my : Q) (st : TuringSimulation) :
  chemical (tool st) = ChemB -> strength (tool st) == 1 -> 0 < size (tool st) ->
  let res := resolution st in
  let inside x y := ((0 <= x < res)%Z /\ (0 <= y < res)%Z) in
  let dist x y := distance sqrt (cell_pos res x y) (Vec2 mx (inject_Z res - my)) in
  let amount x y := Spec.falloff (dist x y) (size (tool st)) (strength (tool st)) in
  let before x y := texel res (current_field st) x y in
  let after x y := texel res (current_field (applyBrush sqrt mx my st)) x y in
  (forall x y, inside x y -> dist x y == 0 -> 0 <= cg (before x y) ->
     cg (after x y) == 1)
  /\ (forall x y, inside x y -> dist x y < size (tool st) ->
        cg (after x y) = Qmin 1 (cg (before x y) + amount x y)
        /\ (1 <= cg (before x y) + amount x y -> cg (after x y) == 1))
  /\ (forall x1 y1 x2 y2,
        0 <= dist x1 y1 -> dist x1 y1 < dist x2 y2 -> dist x2 y2 < size (tool st) ->
        amount x2 y2 < amount x1 y1)
  /\ (forall x y, inside x y -> size (tool st) <= dist x y -> after x y = before x y).
Proof.
  intros Hc Hs Hsz. cbv zeta.
  assert (Hnear : forall x y,
    ((0 <= x < resolution st)%Z /\ (0 <= y < resolution st)%Z) ->
    distance sqrt (cell_pos (resolution st) x y) (Vec2 mx (inject_Z (resolution st) - my))
      < size (tool st) ->
    cg (texel (resolution st) (current_field (applyBrush sqrt mx my st)) x y)
    = Qmin 1 (cg (texel (resolution st) (current_field st) x y)
              + Spec.falloff
                  (distance sqrt (cell_pos (resolution st) x y)
                     (Vec2 mx (inject_Z (resolution st) - my)))
                  (size (tool st)) (strength (tool st)))).
  { intros x y [Hx Hy] Hd.
    pose proof (applyBrush_texel sqrt mx my st x y Hx Hy) as E. cbv zeta in E.
    rewrite E, Hc. destruct (Qlt_le_dec _ (size (tool st))); [ reflexivity | lra ]. }
  split; [ | split; [ | split ] ].
  - intros x y Hxy Hd Hb.
    rewrite (Hnear x y Hxy) by lra.
    rewrite (falloff_at_center _ _ _ Hd Hs). apply Q.min_l. lra.
  - intros x y Hxy Hd. split; [ now apply Hnear | ].
    intros H1. rewrite (Hnear x y Hxy Hd). now apply Q.min_l.
  - intros x1 y1 x2 y2 H0 H12 H2.
    apply falloff_strictly_decreasing; [ lra | assumption .. ].
  - intros x y [Hx Hy] Hd.
    pose proof (applyBrush_texel sqrt mx my st x y Hx Hy) as E. cbv zeta in E.
    rewrite E. destruct (Qlt_le_dec _ (size (tool st))); [ lra | reflexivity ].
Qed.

Lemma brush_profile_witness :
  let st := example_blank in
  let res := resolution st in
  let after x y := texel res (current_field (applyBrush sqrt_fx 1.5 1.5 st)) x y in
  (chemical (tool st) = ChemB /\ strength (tool st) == 1 /\ 0 < size (tool st))
  /\ cg (after 1 1)%Z == 1
  /\ cg (after 0 1)%Z == Qmin 1 (0 + Spec.falloff 1 (6 # 5) 1)
  /\ Spec.falloff 1 (6 # 5) 1 < Spec.falloff 0 (6 # 5) 1
  /\ (after 0 0)%Z = texel res (current_field st) 0 0.
Proof.
  cbv zeta.
  assert (Hc : chemical (tool example_blank) = ChemB) by reflexivity.
  assert (Hs : strength (tool example_blank) == 1) by reflexivity.
  assert (Hz : 0 < size (tool example_blank)) by reflexivity.
  split; [ repeat split; assumption | ].
  destruct (brush_profile sqrt_fx 1.5 1.5 example_blank Hc Hs Hz)
    as (Hcenter & Hnear & Hdecr & Hfar).
  assert (Hin : forall x y, (0 <= x < 3)%Z -> (0 <= y < 3)%Z ->
                 (0 <= x < resolution example_blank)%Z
                 /\ (0 <= y < resolution example_blank)%Z)
    by (intros x y Hx Hy; exact (conj Hx Hy)).
  split; [ | split; [ | split ] ].
  - apply (Hcenter 1 1)%Z; [ apply Hin; lia | vm_compute; reflexivity | vm_compute; discriminate ].
  - destruct (Hnear 0 1)%Z as [E _];
      [ apply Hin; lia | vm_compute; reflexivity | rewrite E; vm_compute; reflexivity ].
  - pose proof (Hdecr 1 1 0 1)%Z as H. vm_compute in H. vm_compute.
    apply H; [ discriminate | reflexivity | reflexivity ].
  - apply (Hfar 0 0)%Z; [ apply Hin; lia | vm_compute; discriminate ].
Defined.

(** ** The clamp invariant under interleaved forcing *)

Lemma texel_in_unit (res : Z) (tex : texture) (x y : Z) :
  field_in_unit tex -> in_unit (texel res tex x y).
Proof.
  intros H. unfold texel.
  destruct (nth_in_or_default (Z.to_nat ((y mod res) * res + x mod res)) tex texel_default)
    as [Hin | Hd].
  - unfold field_in_unit in H. rewrite Forall_forall in H. now apply H.
  - rewrite Hd. unfold in_unit, texel_default. cbn [cr cg]. lra.
Qed.

Lemma brush_main_in_unit sqrt res u_state U v :
  0 <= u_brushStrength U -> field_in_unit u_state ->
  in_unit (brush_main sqrt res u_state U v).
Proof.
  intros Hs Hu. unfold brush_main, texture2D.
  set (c := texel res u_state _ _).
  assert (Hc : in_unit c) by (subst c; now apply texel_in_unit).
  destruct Hc as [HA [HB0 HB1]].
  destruct (Qlt_le_dec _ (u_brushSize U)); [ | now split ].
  set (f := brush_falloff U _).
  assert (Hf : 0 <= f).
  { subst f. unfold brush_falloff. cbv zeta.
    set (u := 1 - _ / _). assert (0 <= u * u) by nra. nra. }
  destruct (u_chemical U =? 0)%Z; split; cbn [set_g cr cg]; try exact HA; split.
  - apply Q.le_max_l.
  - apply Q.max_lub; lra.
  - apply Q.min_glb; lra.
  - apply Q.le_min_l.
Qed.

Lemma applyBrush_in_unit sqrt (mx my : Q) (st : TuringSimulation) :
  0 <= strength (tool st) -> field_in_unit (current_field st) ->
  field_in_unit (current_field (applyBrush sqrt mx my st)).
Proof.
  intros Hs H. rewrite applyBrush_current. apply drawArrays_Forall.
  intros v. now apply brush_main_in_unit.
Qed.

Lemma stamp_data_in_unit (res : Z) (x y radius : Q) (data : texture) :
  field_in_unit data -> field_in_unit (stamp_data res x y radius data).
Proof.
  intros H. unfold stamp_data.
  apply fold_left_invariant; [ | exact H ]. intros d dy Hd.
  apply fold_left_invariant; [ | exact Hd ]. intros d' dx Hd'.
  unfold stamp_body.
  destruct (Qle_bool _ _); [ | exact Hd' ].
  destruct (_ && _)%bool; [ now apply data_set_B_in_unit | exact Hd' ].
Qed.

Lemma applyStamp_in_unit (mx my : Q) (st : TuringSimulation) :
  field_in_unit (current_field st) ->
  field_in_unit (current_field (applyStamp mx my st)).
Proof.
  intros H. unfold current_field, applyStamp.
  rewrite currentTexture_write, texture_at_write_same.
  now apply stamp_data_in_unit.
Qed.

Lemma simulate_in_unit (st : TuringSimulation) :
  field_in_unit (current_field st) -> field_in_unit (current_field (simulate st)).
Proof.
  intros H. unfold simulate.
  destruct (negb (isRunning st)); [ exact H | now apply iter_simulate_iteration_in_unit ].
Qed.

Lemma tool_write_texture i t st : tool (write_texture i t st) = tool st.
Proof. destruct i; reflexivity. Qed.

Lemma tool_iter_simulate_iteration n st :
  tool (Nat.iter n simulate_iteration st) = tool st.
Proof.
  induction n as [|n IH]; [ reflexivity | ].
  cbn [Nat.iter nat_rect]. unfold simulate_iteration at 1.
  cbn [tool set_currentTexture]. now rewrite tool_write_texture.
Qed.

Lemma tool_run_command sqrt st c : tool (run_command sqrt st c) = tool st.
Proof.
  destruct c as [|x y|x y]; cbn [run_command].
  - unfold simulate. destruct (negb (isRunning st));
      [ reflexivity | apply tool_iter_simulate_iteration ].
  - unfold applyBrush. cbn [tool set_currentTexture]. apply tool_write_texture.
  - unfold applyStamp. apply tool_write_texture.
Qed.

(** Frames of the stepper, brush applications of non-negative strength and
    stamps, in any order, keep both channels of the current buffer in
    [[0,1]]. *)
Lemma run_commands_in_unit sqrt (cs : list Command) (st : TuringSimulation) :
  0 <= strength (tool st) -> field_in_unit (current_field st) ->
  field_in_unit (current_field (run_commands sqrt cs st)).
Proof.
  unfold run_commands. revert st.
  induction cs as [|c cs IH]; intros st Hs H; cbn [fold_left]; [ exact H | ].
  apply IH.
  - now rewrite tool_run_command.
  - destruct c as [|x y|x y]; cbn [run_command].
    + now apply simulate_in_unit.
    + now apply applyBrush_in_unit.
    + now apply applyStamp_in_unit.
Qed.

(** ** A paused frame and the eraser *)

Lemma updateJourney_textures Math_sin Math_cos dt st :
  textures (updateJourney Math_sin Math_cos dt st) = textures st
  /\ currentTexture (updateJourney Math_sin Math_cos dt st) = currentTexture st
  /\ isRunning (updateJourney Math_sin Math_cos dt st) = isRunning st.
Proof.
  unfold updateJourney.
  destruct (negb (active (journey st)) || _)%bool; [ repeat split | ].
  cbn [journey set_journey journey_type with_time].
  destruct (journey_type (journey st)); try (repeat split; fail).
  unfold journey_reroll, Math_random.
  cbn [journey set_journey set_randomCalls target with_time random randomCalls].
  destruct (targetF_falsy _); [ repeat split | ].
  destruct (Qlt_le_dec _ 0.01); [ repeat split | ].
  cbn [journey set_journey set_randomCalls target with_time].
  destruct (target (journey st)) as [[tf tk]|]; repeat split.
Qed.

(** A whole animation frame of a paused simulation leaves both buffers and
    the current index as they were: only the journey and the canvas move. *)
Lemma animate_paused Math_sin Math_cos (now : Q) (st : TuringSimulation) :
  isRunning st = false ->
  textures (animate Math_sin Math_cos now st) = textures st
  /\ currentTexture (animate Math_sin Math_cos now st) = currentTexture st.
Proof.
  intros Hp. unfold animate. cbv zeta.
  destruct (updateJourney_textures Math_sin Math_cos (now - lastTime st)
              (set_lastTime now st)) as (Ht & Hc & Hr).
  set (st1 := updateJourney _ _ _ _) in *.
  unfold simulate. rewrite Hr. cbn [isRunning set_lastTime]. rewrite Hp. cbn [negb].
  unfold render. cbn [textures currentTexture set_canvas].
  now rewrite Ht, Hc.
Qed.

(** The eraser is the brush on chemical A, whatever chemical is selected: it
    subtracts from channel B. *)
Lemma eraser_is_brush_on_A sqrt (rect : DOMRect) (e : MouseEvent) (st : TuringSimulation) :
  tool_type (tool st) = Eraser ->
  let x := (clientX e - rect_left rect) * (inject_Z (resolution st) / rect_width rect) in
  let y := (clientY e - rect_top rect) * (inject_Z (resolution st) / rect_height rect) in
  current_field (handleCanvasInteraction sqrt rect e st)
  = current_field (applyBrush sqrt x y (set_chemical ChemA st)).
Proof.
  intros Ht. cbv zeta. unfold handleCanvasInteraction. rewrite Ht. cbv zeta.
  reflexivity.
Qed.

(** * Further properties of the engine *)

(** ** Full grids *)

Lemma texel_index_bound (res x y : Z) :
  (0 < res)%Z ->
  (Z.to_nat ((y mod res) * res + x mod res) < Z.to_nat (res * res))%nat.
Proof.
  intros Hres.
  pose proof (Z.mod_pos_bound x res Hres). pose proof (Z.mod_pos_bound y res Hres).
  nia.
Qed.

Lemma texel_Forall (P : vec4 -> Prop) (res : Z) (tex : texture) (x y : Z) :
  (0 < res)%Z -> length tex = Z.to_nat (res * res) -> Forall P tex ->
  P (texel res tex x y).
Proof.
  intros Hres Hlen HP. unfold texel. rewrite Forall_forall in HP.
  apply HP, nth_In. rewrite Hlen. now apply texel_index_bound.
Qed.

Lemma resolution_write_texture i t st : resolution (write_texture i t st) = resolution st.
Proof. destruct i; reflexivity. Qed.

Lemma params_write_texture i t st : params (write_texture i t st) = params st.
Proof. destruct i; reflexivity. Qed.

Lemma simulate_iteration_resolution st :
  resolution (simulate_iteration st) = resolution st.
Proof.
  unfold simulate_iteration. cbn [resolution set_currentTexture].
  apply resolution_write_texture.
Qed.

Lemma simulate_iteration_params st : params (simulate_iteration st) = params st.
Proof.
  unfold simulate_iteration. cbn [params set_currentTexture].
  apply params_write_texture.
Qed.

Lemma simulate_iteration_length st :
  length (current_field (simulate_iteration st))
  = Z.to_nat (resolution st * resolution st).
Proof. rewrite simulate_iteration_current. apply drawArrays_length. Qed.

(** The output of [simulationSource] on a grid where the nine samples have
    the same two channels: the Laplacian vanishes. *)
Lemma simulation_main_uniform (res : Z) (u_state : texture) (U : SimUniforms)
    (v : vec2) (a b : Q) :
  (0 < res)%Z -> length u_state = Z.to_nat (res * res) ->
  uniform_field a b u_state ->
  let out := simulation_main res u_state U v in
  cr out == clamp (a + (- (a * b * b) + u_feed U * (1 - a)) * u_dt U) 0 1
  /\ cg out == clamp (b + (a * b * b - (u_kill U + u_feed U) * b) * u_dt U) 0 1.
Proof.
  intros Hres Hlen Hu. cbv zeta. unfold simulation_main, texture2D.
  repeat match goal with
  | |- context [texel res u_state ?x ?y] =>
      let c := fresh "c" in
      let Hc := fresh "Hc" in
      pose proof (texel_Forall _ res u_state x y Hres Hlen Hu) as Hc;
      cbv beta in Hc; set (c := texel res u_state x y) in *; clearbody c;
      destruct Hc as [? ?]
  end.
  unfold vec4_sub, vec4_add, vec4_scale. cbn [cr cg].
  split; apply clamp_comp.
  - repeat match goal with H : cr _ == a |- _ => rewrite H; clear H end.
    repeat match goal with H : cg _ == b |- _ => rewrite H; clear H end.
    ring.
  - repeat match goal with H : cr _ == a |- _ => rewrite H; clear H end.
    repeat match goal with H : cg _ == b |- _ => rewrite H; clear H end.
    ring.
Qed.

Lemma simulation_main_B_extinct (res : Z) (u_state : texture) (U : SimUniforms) (v : vec2) :
  (0 < res)%Z -> length u_state = Z.to_nat (res * res) ->
  B_extinct u_state ->
  cg (simulation_main res u_state U v) == 0.
Proof.
  intros Hres Hlen Hu. unfold simulation_main, texture2D.
  repeat match goal with
  | |- context [texel res u_state ?x ?y] =>
      let c := fresh "c" in
      let Hc := fresh "Hc" in
      pose proof (texel_Forall _ res u_state x y Hres Hlen Hu) as Hc;
      cbv beta in Hc; set (c := texel res u_state x y) in *; clearbody c
  end.
  unfold vec4_sub, vec4_add, vec4_scale. cbn [cr cg].
  transitivity (clamp 0 0 1); [ apply clamp_comp | reflexivity ].
  repeat match goal with H : cg _ == 0 |- _ => rewrite H; clear H end.
  ring.
Qed.

(** X1.  Diffusion does nothing on a uniform field: the weights of the
    9-point stencil sum to zero.  On a full grid whose cells all hold A = [a]
    and B = [b], one sub-step leaves a uniform field again, with the two
    channels moved by the reaction term only; in particular the rest state
    A = 1, B = 0 is a fixed point of the stepper for every parameter
    tuple. *)
Theorem uniform_field_stays_uniform (st : TuringSimulation) (a b : Q) :
  (0 < resolution st)%Z ->
  length (current_field st) = Z.to_nat (resolution st * resolution st) ->
  uniform_field a b (current_field st) ->
  let F := feedRate (params st) in
  let K := killRate (params st) in
  uniform_field (clamp (a + (- (a * b * b) + F * (1 - a))) 0 1)
                (clamp (b + (a * b * b - (K + F) * b)) 0 1)
                (current_field (simulate_iteration st))
  /\ (a == 1 -> b == 0 -> uniform_field 1 0 (current_field (simulate_iteration st))).
Proof.
  intros Hres Hlen Hu. cbv zeta.
  assert (Hgen : uniform_field (clamp (a + (- (a * b * b) + feedRate (params st) * (1 - a))) 0 1)
                   (clamp (b + (a * b * b - (killRate (params st) + feedRate (params st)) * b)) 0 1)
                   (current_field (simulate_iteration st))).
  { rewrite simulate_iteration_current. apply drawArrays_Forall. intros v.
    match goal with
    | |- context [simulation_main _ _ ?U _] =>
        destruct (simulation_main_uniform (resolution st) (current_field st) U v a b
                    Hres Hlen Hu) as [HA HB]
    end.
    cbn [u_feed u_kill u_dt] in HA, HB.
    split.
    - rewrite HA. apply clamp_comp. ring.
    - rewrite HB. apply clamp_comp. ring. }
  split; [ exact Hgen | ].
  intros Ha Hb. unfold uniform_field in *.
  eapply Forall_impl; [ | exact Hgen ]. cbv beta. intros c [HA HB]. split.
  - rewrite HA. transitivity (clamp 1 0 1); [ apply clamp_comp | reflexivity ].
    rewrite Ha, Hb. ring.
  - rewrite HB. transitivity (clamp 0 0 1); [ apply clamp_comp | reflexivity ].
    rewrite Ha, Hb. ring.
Qed.

Lemma uniform_field_stays_uniform_witness :
  let st := set_textures (repeat (Vec4 1 0 0 1) 9, repeat (Vec4 1 0 0 1) 9)
              (constructed 3 example_random 0) in
  (0 < resolution st)%Z
  /\ uniform_field 1 0 (current_field st)
  /\ uniform_field 1 0 (current_field (simulate_iteration st)).
Proof.
  cbv zeta.
  set (st := set_textures _ _).
  assert (Hres : (0 < resolution st)%Z) by reflexivity.
  assert (Hlen : length (current_field st)
                 = Z.to_nat (resolution st * resolution st)) by reflexivity.
  assert (Hu : uniform_field 1 0 (current_field st)).
  { vm_compute. repeat constructor. }
  split; [ exact Hres | split; [ exact Hu | ] ].
  apply (uniform_field_stays_uniform st 1 0 Hres Hlen Hu); reflexivity.
Defined.

Lemma iter_simulate_iteration_resolution n st :
  resolution (Nat.iter n simulate_iteration st) = resolution st.
Proof.
  induction n as [|n IH]; [ reflexivity | ].
  cbn [Nat.iter nat_rect]. now rewrite simulate_iteration_resolution.
Qed.

(** X2.  Channel B cannot come back by itself: on a full grid where B is 0
    in every cell, B is 0 in every cell after any number of sub-steps, for
    every parameter tuple and whatever channel A holds.  Only seeding and
    forcing put B into the field. *)
Theorem B_extinct_persists (st : TuringSimulation) (n : nat) :
  (0 < resolution st)%Z ->
  length (current_field st) = Z.to_nat (resolution st * resolution st) ->
  B_extinct (current_field st) ->
  B_extinct (current_field (Nat.iter n simulate_iteration st)).
Proof.
  intros Hres Hlen H0. induction n as [|n IH]; [ exact H0 | ].
  cbn [Nat.iter nat_rect].
  change (nat_rect _ st (fun _ => simulate_iteration) n)
    with (Nat.iter n simulate_iteration st) in *.
  set (s := Nat.iter n simulate_iteration st) in *.
  assert (Hr : resolution s = resolution st) by apply iter_simulate_iteration_resolution.
  assert (Hl : length (current_field s) = Z.to_nat (resolution s * resolution s)).
  { destruct n as [|m]; [ exact Hlen | ].
    subst s. cbn [Nat.iter nat_rect]. rewrite simulate_iteration_length.
    now rewrite simulate_iteration_resolution. }
  rewrite simulate_iteration_current. apply drawArrays_Forall. intros v.
  apply simulation_main_B_extinct; [ lia | exact Hl | exact IH ].
Qed.

Lemma B_extinct_persists_witness :
  let st := constructed 3 example_random 0 in
  (0 < resolution st)%Z
  /\ B_extinct (current_field st)
  /\ B_extinct (current_field (Nat.iter 5 simulate_iteration st)).
Proof.
  cbv zeta.
  set (st := constructed 3 example_random 0).
  assert (Hres : (0 < resolution st)%Z) by reflexivity.
  assert (Hlen : length (current_field st)
                 = Z.to_nat (resolution st * resolution st)) by reflexivity.
  assert (Hu : B_extinct (current_field st)).
  { vm_compute. repeat constructor. }
  split; [ exact Hres | split; [ exact Hu | ] ].
  apply (B_extinct_persists st 5 Hres Hlen Hu).
Defined.

(** ** Well-formed states *)

Lemma data_set_B_length (k : nat) (data : texture) :
  length (data_set_B k data) = length data.
Proof.
  revert k. induction data as [|c rest IH]; intros k; [ now destruct k | ].
  destruct k as [|k]; cbn [data_set_B length]; [ reflexivity | now rewrite IH ].
Qed.

Lemma stamp_data_length (res : Z) (x y radius : Q) (data : texture) :
  length (stamp_data res x y radius data) = length data.
Proof.
  unfold stamp_data.
  apply (fold_left_invariant (fun d => length d = length data)); [ | reflexivity ].
  intros d dy Hd.
  apply (fold_left_invariant (fun d => length d = length data)); [ | exact Hd ].
  intros d' dx Hd'. unfold stamp_body.
  destruct (Qle_bool _ _); [ | exact Hd' ].
  destruct (_ && _)%bool; [ now rewrite data_set_B_length | exact Hd' ].
Qed.

Lemma write_scratch_well_formed (t : texture) (st : TuringSimulation) :
  well_formed st -> length t = Z.to_nat (resolution st * resolution st) ->
  well_formed (set_currentTexture (1 - currentTexture st)
                 (write_texture (1 - currentTexture st) t st)).
Proof.
  intros (Hc & H0 & H1) Ht. unfold well_formed.
  destruct st as [p v tl j r res [t0 t1] c lt cv rnd rc].
  cbn in *. destruct c as [|[|c]]; cbn; repeat split; try assumption; lia.
Qed.

Lemma simulate_iteration_well_formed st :
  well_formed st -> well_formed (simulate_iteration st).
Proof.
  intros H. unfold simulate_iteration. cbv zeta.
  rewrite currentTexture_write.
  apply write_scratch_well_formed; [ exact H | apply drawArrays_length ].
Qed.

Lemma applyBrush_well_formed sqrt mx my st :
  well_formed st -> well_formed (applyBrush sqrt mx my st).
Proof.
  intros H. unfold applyBrush. cbv zeta.
  rewrite currentTexture_write.
  apply write_scratch_well_formed; [ exact H | apply drawArrays_length ].
Qed.

Lemma applyStamp_well_formed mx my st :
  well_formed st -> well_formed (applyStamp mx my st).
Proof.
  intros (Hc & H0 & H1). unfold applyStamp, well_formed.
  destruct st as [p v tl j r res [t0 t1] c lt cv rnd rc].
  cbn in *. destruct c as [|c]; cbn; rewrite ?stamp_data_length; repeat split; assumption.
Qed.

Lemma simulate_well_formed st : well_formed st -> well_formed (simulate st).
Proof.
  intros H. unfold simulate. destruct (negb (isRunning st)); [ exact H | ].
  induction (Z.to_nat _) as [|n IH]; [ exact H | ].
  cbn [Nat.iter nat_rect]. now apply simulate_iteration_well_formed.
Qed.

Lemma seedPattern_well_formed sqrt st :
  (currentTexture st <= 1)%nat -> well_formed (seedPattern sqrt st).
Proof.
  intros Hc. unfold seedPattern.
  set (res := resolution st).
  set (n := Z.to_nat (res * res)).
  set (acc0 := fold_left _ _ _).
  pose (P := fun acc : texture * TuringSimulation =>
               length (fst acc) = n /\ resolution (snd acc) = res
               /\ currentTexture (snd acc) = currentTexture st).
  assert (H0 : P acc0).
  { subst acc0. apply (fold_left_invariant P).
    - intros [d s] k (Hd & Hr & Hcs). unfold seed_center_body, Math_random.
      destruct (Qlt_le_dec _ seedRadius); [ | destruct (Qlt_le_dec _ 0.001) ];
        unfold P; cbn [fst snd resolution currentTexture set_randomCalls];
        rewrite ?data_set_B_length; auto.
    - unfold P. cbn [fst snd]. rewrite repeat_length. auto. }
  assert (Hcl : forall acc, P acc -> P (seed_cluster res acc)).
  { intros [d s] (Hd & Hr & Hcs). unfold seed_cluster, Math_random, P.
    cbn [fst snd resolution currentTexture set_randomCalls]. split; [ | auto ].
    apply (fold_left_invariant (fun d' => length d' = n)); [ | exact Hd ].
    intros d' k Hd'. unfold seed_cluster_body.
    destruct (Qlt_le_dec _ 100); [ now rewrite data_set_B_length | exact Hd' ]. }
  assert (H5 : P (Nat.iter 5 (seed_cluster res) acc0)).
  { cbn [Nat.iter nat_rect]. now repeat apply Hcl. }
  destruct (Nat.iter 5 (seed_cluster res) acc0) as [data st'].
  destruct H5 as (Hd & Hr & Hcs). cbn [fst snd] in *.
  unfold well_formed. cbn [textures set_textures currentTexture resolution fst snd].
  rewrite Hr, Hcs. subst n. auto.
Qed.

(** X3.  The engine keeps its buffers well formed: from the state [init()]
    builds (constructor, then [seedPattern]), after any sequence of frames
    of the stepper, brush applications and stamps, [currentTexture] is 0 or
    1, both buffers hold exactly [resolution * resolution] texels, and the
    resolution is the one the engine was built with. *)
Theorem commands_keep_well_formed (sqrt : Q -> Q) (res : Z) (rnd : nat -> Q) (now : Q)
    (cs : list Command) :
  let st := run_commands sqrt cs (seedPattern sqrt (constructed res rnd now)) in
  well_formed st /\ resolution st = res.
Proof.
  cbv zeta.
  assert (H0 : well_formed (seedPattern sqrt (constructed res rnd now))
               /\ resolution (seedPattern sqrt (constructed res rnd now)) = res).
  { split; [ apply seedPattern_well_formed; cbn; lia | ].
    pose proof (seedPattern_well_formed sqrt (constructed res rnd now)) as H.
    unfold seedPattern.
    set (acc0 := fold_left _ _ _).
    assert (Ha : resolution (snd acc0) = res).
    { subst acc0.
      apply (fold_left_invariant (fun acc : texture * TuringSimulation =>
                                    resolution (snd acc) = res)); [ | reflexivity ].
      intros [d s] k Hs. unfold seed_center_body, Math_random.
      destruct (Qlt_le_dec _ seedRadius); [ exact Hs | ].
      destruct (Qlt_le_dec _ 0.001); exact Hs. }
    assert (Hcl : forall acc : texture * TuringSimulation,
              resolution (snd acc) = res ->
              resolution (snd (seed_cluster (resolution (constructed res rnd now)) acc)) = res).
    { intros [d s] Hs. exact Hs. }
    assert (H5 : resolution (snd (Nat.iter 5
                   (seed_cluster (resolution (constructed res rnd now))) acc0)) = res).
    { cbn [Nat.iter nat_rect]. now repeat apply Hcl. }
    destruct (Nat.iter 5 _ acc0) as [data st']. exact H5. }
  revert H0. generalize (seedPattern sqrt (constructed res rnd now)).
  unfold run_commands. induction cs as [|c cs IH]; intros st [Hw Hr]; cbn [fold_left].
  - now split.
  - apply IH. destruct c as [|x y|x y]; cbn [run_command]; split.
    + now apply simulate_well_formed.
    + unfold simulate. destruct (negb (isRunning st)); [ exact Hr | ].
      now rewrite iter_simulate_iteration_resolution.
    + now apply applyBrush_well_formed.
    + unfold applyBrush. cbn [resolution set_currentTexture].
      now rewrite resolution_write_texture.
    + now apply applyStamp_well_formed.
    + unfold applyStamp. now rewrite resolution_write_texture.
Qed.

(** ** The step button and paused frames *)

(** X4.  The step button never advances the field.  Its handler calls
    [simulate] only while the simulation is paused, and [simulate] returns at
    once when paused: both buffers and [currentTexture] are the same after
    the click, in every state. *)
Theorem stepBtn_never_steps (st : TuringSimulation) :
  textures (stepBtn_click st) = textures st
  /\ currentTexture (stepBtn_click st) = currentTexture st
  /\ params (stepBtn_click st) = params st.
Proof.
  unfold stepBtn_click. destruct (isRunning st) eqn:E; cbn [negb].
  - repeat split.
  - unfold simulate. rewrite E. cbn [negb]. repeat split.
Qed.

Lemma animate_isRunning Math_sin Math_cos now st :
  isRunning (animate Math_sin Math_cos now st) = isRunning st.
Proof.
  unfold animate. cbv zeta.
  destruct (updateJourney_textures Math_sin Math_cos (now - lastTime st)
              (set_lastTime now st)) as (_ & _ & Hr).
  set (st1 := updateJourney _ _ _ _) in *.
  unfold render. cbn [isRunning set_canvas].
  unfold simulate. destruct (negb (isRunning st1)); [ exact Hr | ].
  induction (Z.to_nat _) as [|n IH]; [ exact Hr | ].
  cbn [Nat.iter nat_rect]. unfold simulate_iteration at 1.
  cbn [isRunning set_currentTexture].
  destruct (1 - currentTexture _)%nat; exact IH.
Qed.

(** X5.  Pause holds across frames: while [isRunning] is false, any number
    of animation frames, at any clock readings and with any journey running,
    leaves both buffers and [currentTexture] as they were. *)
Theorem paused_frames_keep_field (Math_sin Math_cos : Q -> Q) (nows : list Q)
    (st : TuringSimulation) :
  isRunning st = false ->
  textures (frames Math_sin Math_cos nows st) = textures st
  /\ currentTexture (frames Math_sin Math_cos nows st) = currentTexture st.
Proof.
  unfold frames. revert st.
  induction nows as [|now nows IH]; intros st Hp; cbn [fold_left]; [ now split | ].
  destruct (animate_paused Math_sin Math_cos now st Hp) as [Ht Hc].
  destruct (IH (animate Math_sin Math_cos now st)) as [Ht' Hc'].
  - now rewrite animate_isRunning.
  - split; congruence.
Qed.

Lemma paused_frames_keep_field_witness :
  let zero := fun _ : Q => 0 in
  isRunning example_paused = false
  /\ textures (frames zero zero [16; 33; 50] example_paused) = textures example_paused.
Proof.
  cbv zeta. split; [ reflexivity | ].
  apply (paused_frames_keep_field (fun _ => 0) (fun _ => 0) [16; 33; 50] example_paused).
  reflexivity.
Defined.

(** ** The tool: wheel and pointer *)

(** X6.  The wheel keeps the brush radius in [[5, 100]]: after any wheel
    event, from any radius, [5 <= size <= 100]; when the moved radius
    [size - deltaY * 0.1] is already in that range it is stored as it is.
    The type, chemical and strength of the tool and the field are
    untouched. *)
Theorem canvas_wheel_bounds (deltaY : Q) (st : TuringSimulation) :
  let st' := canvas_wheel deltaY st in
  (5 <= size (tool st') /\ size (tool st') <= 100)
  /\ (5 <= size (tool st) - deltaY * 0.1 <= 100 ->
      size (tool st') == size (tool st) - deltaY * 0.1)
  /\ tool_type (tool st') = tool_type (tool st)
  /\ chemical (tool st') = chemical (tool st)
  /\ strength (tool st') = strength (tool st)
  /\ textures st' = textures st.
Proof.
  cbv zeta. unfold canvas_wheel. cbn [tool set_tool size tool_type chemical strength textures].
  split; [ split | split; [ | repeat split ] ].
  - apply Q.le_max_l.
  - apply Q.max_lub; [ discriminate | apply Q.le_min_l ].
  - intros [H5 H100]. rewrite Q.min_r by exact H100. now apply Q.max_r.
Qed.

Lemma tool_eta (t : Tool) :
  {| tool_type := tool_type t; chemical := chemical t; size := size t;
     strength := strength t |} = t.
Proof. now destruct t. Qed.

(** X7.  A pointer interaction never changes the tool, though the eraser
    borrows the chemical slot: after [handleCanvasInteraction] the tool is
    exactly as before.  The brush paints with the selected chemical, the
    eraser paints with chemical A whatever is selected, and the stamp tool
    stamps; all at the pointer position scaled from page to grid
    coordinates. *)
Theorem interaction_keeps_tool (sqrt : Q -> Q) (rect : DOMRect) (e : MouseEvent)
    (st : TuringSimulation) :
  let x := (clientX e - rect_left rect) * (inject_Z (resolution st) / rect_width rect) in
  let y := (clientY e - rect_top rect) * (inject_Z (resolution st) / rect_height rect) in
  let st' := handleCanvasInteraction sqrt rect e st in
  tool st' = tool st
  /\ current_field st'
     = match tool_type (tool st) with
       | Brush => current_field (applyBrush sqrt x y st)
       | Eraser => current_field (applyBrush sqrt x y (set_chemical ChemA st))
       | Stamp => current_field (applyStamp x y st)
       end.
Proof.
  cbv zeta. unfold handleCanvasInteraction. cbv zeta.
  destruct (tool_type (tool st)) eqn:Et.
  - split.
    + unfold set_chemical at 1. cbn [tool set_tool].
      unfold applyBrush. cbn [tool set_currentTexture]. rewrite tool_write_texture.
      unfold set_chemical. cbn [tool set_tool tool_type size strength chemical].
      apply tool_eta.
    + unfold set_chemical at 1.
      change (current_field (set_tool ?t ?s)) with (current_field s).
      f_equal. f_equal. unfold set_chemical. rewrite tool_eta.
      now destruct st.
  - split.
    + unfold set_chemical at 1. cbn [tool set_tool].
      unfold applyBrush. cbn [tool set_currentTexture]. rewrite tool_write_texture.
      unfold set_chemical. cbn [tool set_tool tool_type size strength chemical].
      apply tool_eta.
    + reflexivity.
  - split; [ | reflexivity ]. unfold applyStamp. apply tool_write_texture.
Qed.

(** ** The colorizer stays in gamut *)

Lemma mix_between (x y v : Q) :
  0 <= v -> v <= 1 -> Qmin x y <= mix x y v /\ mix x y v <= Qmax x y.
Proof.
  intros H0 H1. unfold mix.
  destruct (Q.min_spec x y) as [[Hlt Hmin]|[Hle Hmin]];
  destruct (Q.max_spec x y) as [[Hlt' Hmax]|[Hle' Hmax]];
    rewrite Hmin, Hmax; split; nra.
Qed.

(** X8.  The colorizer cannot leave the gradient: for every contrast and
    brightness, however large or negative, and every field value, each
    colour component of a displayed pixel lies between the corresponding
    components of the two endpoint colours of the scheme, and alpha is 1. *)
Theorem render_within_gradient (st : TuringSimulation) (x y : Z) :
  (0 <= x < resolution st)%Z -> (0 <= y < resolution st)%Z ->
  let U := render_uniforms st in
  let px := texel (resolution st) (canvas (render st)) x y in
  (Qmin (c1 (u_color1 U)) (c1 (u_color2 U)) <= cr px
   /\ cr px <= Qmax (c1 (u_color1 U)) (c1 (u_color2 U)))
  /\ (Qmin (c2 (u_color1 U)) (c2 (u_color2 U)) <= cg px
      /\ cg px <= Qmax (c2 (u_color1 U)) (c2 (u_color2 U)))
  /\ (Qmin (c3 (u_color1 U)) (c3 (u_color2 U)) <= cb px
      /\ cb px <= Qmax (c3 (u_color1 U)) (c3 (u_color2 U)))
  /\ ca px = 1.
Proof.
  intros Hx Hy. cbv zeta. rewrite render_texel by assumption.
  unfold render_main. cbn [cr cg cb ca mix3 c1 c2 c3].
  match goal with
  | |- context [clamp ?v 0 1] => destruct (clamp_bounds v) as [H0 H1]
  end.
  repeat split; now apply mix_between.
Qed.

Lemma render_within_gradient_witness :
  let px := texel (resolution example_visual) (canvas (render example_visual)) 1 1 in
  (0 <= 1 < resolution example_visual)%Z /\ 0 <= cr px /\ cr px <= 1.
Proof.
  cbv zeta.
  assert (H1 : (0 <= 1 < resolution example_visual)%Z) by in_grid.
  split; [ exact H1 | ].
  destruct (render_within_gradient example_visual 1 1 H1 H1) as ((Hlo & Hhi) & _).
  split.
  - eapply Qle_trans; [ | exact Hlo ]. vm_compute. discriminate.
  - eapply Qle_trans; [ exact Hhi | ]. vm_compute. discriminate.
Defined.

(** ** How many sub-steps a frame runs *)

Lemma iter_simulate_iteration_currentTexture n st :
  (currentTexture st <= 1)%nat ->
  currentTexture (Nat.iter n simulate_iteration st)
  = if Nat.even n then currentTexture st else (1 - currentTexture st)%nat.
Proof.
  intros Hc. induction n as [|n IH]; [ reflexivity | ].
  cbn [Nat.iter nat_rect].
  change (nat_rect _ st (fun _ => simulate_iteration) n)
    with (Nat.iter n simulate_iteration st).
  unfold simulate_iteration at 1. cbn [currentTexture set_currentTexture].
  rewrite currentTexture_write, IH.
  rewrite Nat.even_succ, <- Nat.negb_even.
  destruct (Nat.even n); cbn [negb]; lia.
Qed.

(** X9.  A running frame executes [ceil(simSpeed * 8)] sub-steps: none, and
    no change of state, when [simSpeed <= 0]; at least one as soon as
    [simSpeed > 0], however small; and since every sub-step flips
    [currentTexture], the frame ends on the buffer it started from exactly
    when that number is even (as with the default [simSpeed = 1], 8
    sub-steps). *)
Theorem simulate_step_count (st : TuringSimulation) :
  isRunning st = true -> (currentTexture st <= 1)%nat ->
  let n := Z.to_nat (Qceiling (simSpeed (params st) * 8)) in
  simulate st = Nat.iter n simulate_iteration st
  /\ (simSpeed (params st) <= 0 -> n = 0%nat /\ simulate st = st)
  /\ (0 < simSpeed (params st) -> (1 <= n)%nat)
  /\ (simSpeed (params st) == 1 -> n = 8%nat)
  /\ currentTexture (simulate st)
     = if Nat.even n then currentTexture st else (1 - currentTexture st)%nat.
Proof.
  intros Hr Hc. cbv zeta.
  assert (Hs : simulate st
               = Nat.iter (Z.to_nat (Qceiling (simSpeed (params st) * 8))) simulate_iteration st).
  { unfold simulate. now rewrite Hr. }
  assert (H0 : simSpeed (params st) <= 0 ->
               Z.to_nat (Qceiling (simSpeed (params st) * 8)) = 0%nat).
  { intros Hle.
    assert (Hq : (Qceiling (simSpeed (params st) * 8) <= Qceiling 0)%Z)
      by (apply Qceiling_resp_le; lra).
    change (Qceiling 0) with 0%Z in Hq. lia. }
  split; [ exact Hs | split; [ | split; [ | split ] ] ].
  - intros Hle. split; [ now apply H0 | ]. rewrite Hs, (H0 Hle). reflexivity.
  - intros Hpos. pose proof (Qle_ceiling (simSpeed (params st) * 8)) as Hq.
    assert (Hz : 0 < inject_Z (Qceiling (simSpeed (params st) * 8))) by lra.
    change 0 with (inject_Z 0) in Hz. rewrite <- Zlt_Qlt in Hz. lia.
  - intros H1. rewrite (Qceiling_comp _ 8) by (rewrite H1; reflexivity).
    reflexivity.
  - rewrite Hs. now apply iter_simulate_iteration_currentTexture.
Qed.

Lemma simulate_step_count_witness :
  isRunning example_seeded = true
  /\ (currentTexture example_seeded <= 1)%nat
  /\ simulate example_seeded = Nat.iter 8 simulate_iteration example_seeded
  /\ currentTexture (simulate example_seeded) = 0%nat.
Proof.
  assert (Hr : isRunning example_seeded = true) by reflexivity.
  assert (Hc : (currentTexture example_seeded <= 1)%nat) by (vm_compute; lia).
  destruct (simulate_step_count example_seeded Hr Hc) as (Hs & _ & _ & H8 & Hpar).
  assert (E : Z.to_nat (Qceiling (simSpeed (params example_seeded) * 8)) = 8%nat)
    by (apply H8; reflexivity).
  rewrite E in Hs, Hpar.
  repeat split; assumption.
Defined.

(** ** The brush is monotone *)

(** X10.  On a field in [[0,1]] and with a non-negative strength, the brush
    on chemical B never lowers channel B of any cell and the brush on
    chemical A (the eraser) never raises it; in both cases channel A of
    every cell is kept. *)
Theorem brush_monotone (sqrt : Q -> Q) (mx my : Q) (st : TuringSimulation) (x y : Z) :
  (0 <= x < resolution st)%Z -> (0 <= y < resolution st)%Z ->
  0 <= strength (tool st) -> in_unit (texel (resolution st) (current_field st) x y) ->
  let c := texel (resolution st) (current_field st) x y in
  let c' := texel (resolution st) (current_field (applyBrush sqrt mx my st)) x y in
  match chemical (tool st) with
  | ChemB => cg c <= cg c'
  | ChemA => cg c' <= cg c
  end
  /\ cr c' = cr c.
Proof.
  intros Hx Hy Hs [_ [Hb0 Hb1]]. cbv zeta.
  pose proof (applyBrush_texel sqrt mx my st x y Hx Hy) as E. cbv zeta in E.
  rewrite E. clear E.
  destruct (Qlt_le_dec _ (size (tool st))) as [Hd|Hd].
  - match goal with
    | |- context [Spec.falloff ?d ?r ?s] =>
        pose proof (falloff_nonneg d r s Hs) as Hf; set (f := Spec.falloff d r s) in *
    end.
    destruct (chemical (tool st)); cbn [set_g cr cg]; split; try reflexivity.
    + apply Q.max_lub; lra.
    + apply Q.min_glb; lra.
  - destruct (chemical (tool st)); split; try reflexivity; lra.
Qed.

Lemma brush_monotone_witness :
  let st := example_half in
  let c := texel (resolution st) (current_field st) 3 0 in
  let c' := texel (resolution st) (current_field (applyBrush sqrt_fx 3.5 3.5 st)) 3 0 in
  (0 <= 3 < resolution st)%Z /\ (0 <= 0 < resolution st)%Z
  /\ cg c <= cg c' /\ cg c' == 1.
Proof.
  cbv zeta.
  assert (H3 : (0 <= 3 < resolution example_half)%Z) by in_grid.
  assert (H0 : (0 <= 0 < resolution example_half)%Z) by in_grid.
  split; [ exact H3 | split; [ exact H0 | ] ].
  split.
  - apply (brush_monotone sqrt_fx 3.5 3.5 example_half 3 0 H3 H0).
    + vm_compute. discriminate.
    + vm_compute. repeat split; discriminate.
  - vm_compute. reflexivity.
Defined.

(** ** What [seedPattern] leaves *)

Lemma nth_data_set_B_same (k : nat) (data : texture) (d : vec4) :
  (k < length data)%nat -> nth k (data_set_B k data) d = set_g (nth k data d) 1.
Proof.
  revert k. induction data as [|c rest IH]; intros k Hk; cbn [length] in Hk; [ lia | ].
  destruct k as [|k]; cbn [data_set_B nth]; [ reflexivity | apply IH; lia ].
Qed.

Lemma nth_data_set_B_other (j k : nat) (data : texture) (d : vec4) :
  j <> k -> nth j (data_set_B k data) d = nth j data d.
Proof.
  revert j k. induction data as [|c rest IH]; intros j k Hjk.
  - now destruct k.
  - destruct k as [|k], j as [|j]; cbn [data_set_B nth]; try reflexivity; try congruence.
    apply IH. congruence.
Qed.

Lemma data_set_B_seed_texel (k : nat) (data : texture) :
  Forall seed_texel data -> Forall seed_texel (data_set_B k data).
Proof.
  revert k. induction data as [|c rest IH]; intros k H; [ now destruct k | ].
  inversion H as [|? ? Hc Hrest]; subst.
  destruct k as [|k]; cbn [data_set_B]; constructor; auto.
  right. destruct Hc as [-> | ->]; reflexivity.
Qed.

Lemma data_set_B_keeps_mark (j k : nat) (data : texture) :
  nth j data texel_default = Vec4 1 1 0 1 ->
  nth j (data_set_B k data) texel_default = Vec4 1 1 0 1.
Proof.
  intros H. destruct (Nat.eq_dec j k) as [->|Hjk].
  - destruct (Nat.lt_ge_cases k (length data)) as [Hlt|Hge].
    + rewrite nth_data_set_B_same by exact Hlt. now rewrite H.
    + rewrite nth_overflow in H by exact Hge. discriminate H.
  - now rewrite nth_data_set_B_other.
Qed.

Lemma seed_center_body_keeps sqrt res acc k (j : nat) :
  (Forall seed_texel (fst acc) -> Forall seed_texel (fst (seed_center_body sqrt res acc k)))
  /\ length (fst (seed_center_body sqrt res acc k)) = length (fst acc)
  /\ (nth j (fst acc) texel_default = Vec4 1 1 0 1 ->
      nth j (fst (seed_center_body sqrt res acc k)) texel_default = Vec4 1 1 0 1).
Proof.
  destruct acc as [data st]. unfold seed_center_body, Math_random. cbn [fst].
  destruct (Qlt_le_dec _ seedRadius); [ | destruct (Qlt_le_dec _ 0.001) ]; cbn [fst];
    repeat split; auto using data_set_B_seed_texel, data_set_B_length, data_set_B_keeps_mark.
Qed.

Lemma seed_center_fold_keeps sqrt res l acc (j : nat) :
  (Forall seed_texel (fst acc) ->
   Forall seed_texel (fst (fold_left (seed_center_body sqrt res) l acc)))
  /\ length (fst (fold_left (seed_center_body sqrt res) l acc)) = length (fst acc)
  /\ (nth j (fst acc) texel_default = Vec4 1 1 0 1 ->
      nth j (fst (fold_left (seed_center_body sqrt res) l acc)) texel_default = Vec4 1 1 0 1).
Proof.
  revert acc. induction l as [|k l IH]; intros acc; cbn [fold_left]; [ auto | ].
  destruct (IH (seed_center_body sqrt res acc k)) as (H1 & H2 & H3).
  destruct (seed_center_body_keeps sqrt res acc k j) as (B1 & B2 & B3).
  split; [ auto | split; [ now rewrite H2 | auto ] ].
Qed.

(** Inside the seed radius: the test [dist < seedRadius] of the first pair
    of loops at the texel of column [x] and row [y]. *)
Lemma seed_center_fold_marks sqrt res l acc (j : nat) :
  In j l -> (j < length (fst acc))%nat -> Forall seed_texel (fst acc) ->
  (let dx := inject_Z (Z.of_nat j mod res) - inject_Z res / 2 in
   let dy := inject_Z (Z.of_nat j / res) - inject_Z res / 2 in
   sqrt (dx * dx + dy * dy) < seedRadius) ->
  nth j (fst (fold_left (seed_center_body sqrt res) l acc)) texel_default = Vec4 1 1 0 1.
Proof.
  cbv zeta. revert acc. induction l as [|k l IH]; intros acc Hin Hlen Hseed Hd; [ destruct Hin | ].
  cbn [fold_left].
  destruct (seed_center_body_keeps sqrt res acc k j) as (B1 & B2 & B3).
  destruct Hin as [->|Hin].
  - apply seed_center_fold_keeps.
    destruct acc as [data st]. unfold seed_center_body. cbn [fst] in *.
    destruct (Qlt_le_dec _ seedRadius) as [_|Hge]; [ | lra ]. cbn [fst].
    rewrite nth_data_set_B_same by exact Hlen.
    rewrite Forall_forall in Hseed.
    destruct (Hseed (nth j data texel_default)) as [-> | ->];
      [ now apply nth_In | reflexivity | reflexivity ].
  - apply IH; [ exact Hin | | apply B1; exact Hseed | exact Hd ].
    eapply Nat.lt_le_trans; [ exact Hlen | ]. apply Nat.eq_le_incl. symmetry. exact B2.
Qed.

Lemma seed_cluster_keeps res acc (j : nat) :
  (Forall seed_texel (fst acc) -> Forall seed_texel (fst (seed_cluster res acc)))
  /\ (nth j (fst acc) texel_default = Vec4 1 1 0 1 ->
      nth j (fst (seed_cluster res acc)) texel_default = Vec4 1 1 0 1)
  /\ params (snd (seed_cluster res acc)) = params (snd acc)
  /\ currentTexture (snd (seed_cluster res acc)) = currentTexture (snd acc).
Proof.
  destruct acc as [data st]. unfold seed_cluster, Math_random. cbn [fst snd].
  split; [ | split; [ | split; reflexivity ] ].
  - intros H. apply fold_left_invariant; [ | exact H ].
    intros d k Hd. unfold seed_cluster_body.
    destruct (Qlt_le_dec _ 100); auto using data_set_B_seed_texel.
  - intros H.
    apply (fold_left_invariant (fun d => nth j d texel_default = Vec4 1 1 0 1)); [ | exact H ].
    intros d k Hd. unfold seed_cluster_body.
    destruct (Qlt_le_dec _ 100); auto using data_set_B_keeps_mark.
Qed.

(** X11.  What a reset leaves, whatever [Math.random()] returns: every cell
    of the seeded field has A = 1 and B = 0 or 1 (and the unused components
    0 and 1); every cell within the seed radius (20) of the grid centre
    [(resolution/2, resolution/2)] has B = 1; both buffers hold the same
    field; and the parameters and [currentTexture] are not touched. *)
Theorem seedPattern_field (sqrt : Q -> Q) (st : TuringSimulation) :
  let st' := seedPattern sqrt st in
  let res := resolution st in
  Forall seed_texel (current_field st')
  /\ fst (textures st') = snd (textures st')
  /\ params st' = params st
  /\ currentTexture st' = currentTexture st
  /\ (forall x y : Z,
        (0 <= x < res)%Z -> (0 <= y < res)%Z ->
        (let dx := inject_Z x - inject_Z res / 2 in
         let dy := inject_Z y - inject_Z res / 2 in
         sqrt (dx * dx + dy * dy) < seedRadius) ->
        texel res (current_field st') x y = Vec4 1 1 0 1).
Proof.
  cbv zeta. unfold seedPattern.
  set (res := resolution st).
  set (n := Z.to_nat (res * res)).
  set (data0 := repeat (Vec4 1 0 0 1) n).
  assert (Hs0 : Forall seed_texel data0).
  { apply Forall_forall. intros c Hc. apply repeat_spec in Hc. now left. }
  set (acc0 := fold_left (seed_center_body sqrt res) (seq 0 n) (data0, st)).
  assert (Hst0 : params (snd acc0) = params st /\ currentTexture (snd acc0) = currentTexture st).
  { subst acc0.
    apply (fold_left_invariant (fun acc : texture * TuringSimulation =>
             params (snd acc) = params st /\ currentTexture (snd acc) = currentTexture st));
      [ | now split ].
    intros [d s] k Hs. unfold seed_center_body, Math_random.
    destruct (Qlt_le_dec _ seedRadius); [ exact Hs | ].
    destruct (Qlt_le_dec _ 0.001); exact Hs. }
  assert (Hseed0 : Forall seed_texel (fst acc0)).
  { subst acc0. now apply (seed_center_fold_keeps sqrt res (seq 0 n) (data0, st) 0%nat). }
  set (acc5 := Nat.iter 5 (seed_cluster res) acc0).
  assert (H5 : Forall seed_texel (fst acc5)
               /\ params (snd acc5) = params st
               /\ currentTexture (snd acc5) = currentTexture st
               /\ forall j, nth j (fst acc0) texel_default = Vec4 1 1 0 1 ->
                            nth j (fst acc5) texel_default = Vec4 1 1 0 1).
  { subst acc5. cbn [Nat.iter nat_rect].
    repeat split.
    - repeat apply (seed_cluster_keeps res _ 0%nat). exact Hseed0.
    - repeat (etransitivity; [ apply (seed_cluster_keeps res _ 0%nat) | ]). apply Hst0.
    - repeat (etransitivity; [ apply (seed_cluster_keeps res _ 0%nat) | ]). apply Hst0.
    - intros j Hj. repeat apply (seed_cluster_keeps res _ j). exact Hj. }
  destruct H5 as (Hs5 & Hp5 & Hc5 & Hm5).
  assert (Hcur : forall c : nat,
            texture_at (set_textures (fst acc5, fst acc5) (snd acc5)) c = fst acc5)
    by (intros [|c]; reflexivity).
  destruct acc5 as [data st'] eqn:E5. cbn [fst snd] in *.
  unfold current_field. rewrite Hcur.
  cbn [textures set_textures params currentTexture fst snd].
  split; [ exact Hs5 | split; [ reflexivity | split; [ exact Hp5 | split; [ exact Hc5 | ] ] ] ].
  intros x y Hx Hy Hd.
  unfold texel. rewrite (Z.mod_small x res), (Z.mod_small y res) by lia.
  apply Hm5.
  assert (Hk : (Z.to_nat (y * res + x) < n)%nat) by (subst n; nia).
  subst acc0. apply seed_center_fold_marks.
  - apply in_seq. lia.
  - cbn [fst]. subst data0. now rewrite repeat_length.
  - exact Hs0.
  - cbv zeta. rewrite Z2Nat.id by nia.
    replace ((y * res + x) mod res)%Z with x
      by (rewrite Z.add_comm, Z.mod_add, Z.mod_small; lia).
    replace ((y * res + x) / res)%Z with y
      by (rewrite Z.add_comm, Z.div_add, Z.div_small; lia).
    exact Hd.
Qed.

(** ** Eased transitions stay in the domain *)

Lemma ease_trace_in_domain (e : Easing) (samples : list Q) (st : TuringSimulation) :
  F_domain (ease_startF e) -> F_domain (ease_targetF e) ->
  K_domain (ease_startK e) -> K_domain (ease_targetK e) ->
  Forall (fun now => ease_startTime e <= now) samples ->
  Forall (fun s => params_in_domain (params s)) (ease_trace e samples st).
Proof.
  intros HsF HtF HsK HtK. revert st.
  induction samples as [|now rest IH]; intros st Hall; cbn [ease_trace]; [ constructor | ].
  inversion Hall as [|? ? Hnow Hrest]; subst. constructor.
  - now apply ease_sample_in_domain.
  - destruct (Qlt_le_dec (ease_progress e now) 1); [ now apply IH | constructor ].
Qed.

Lemma last_Forall {A : Type} (P : A -> Prop) (l : list A) (d : A) :
  P d -> Forall P l -> P (last l d).
Proof.
  intros Hd H. induction H as [|x l Hx Hl IH]; [ exact Hd | ].
  destruct l as [|y l']; [ exact Hx | exact IH ].
Qed.

Lemma ease_run_in_domain (e : Easing) (samples : list Q) (st : TuringSimulation) :
  params_in_domain (params st) ->
  F_domain (ease_startF e) -> F_domain (ease_targetF e) ->
  K_domain (ease_startK e) -> K_domain (ease_targetK e) ->
  Forall (fun now => ease_startTime e <= now) samples ->
  params_in_domain (params (ease_run e samples st)).
Proof.
  intros Hst HsF HtF HsK HtK Hall. rewrite ease_run_last.
  apply (last_Forall (fun s => params_in_domain (params s))); [ exact Hst | ].
  now apply ease_trace_in_domain.
Qed.

(** X12.  [animateToParams] has no clamp of its own, but it interpolates:
    started from parameters inside their domains towards a target inside
    them, and sampled at clock readings not before its start, it stores
    parameters inside the domains at every sample and at the end. *)
Theorem animateToParams_in_domain (targetF targetK startTime : Q) (samples : list Q)
    (st : TuringSimulation) :
  params_in_domain (params st) -> F_domain targetF -> K_domain targetK ->
  Forall (fun now => startTime <= now) samples ->
  let e := animateToParams_easing targetF targetK startTime st in
  Forall (fun s => params_in_domain (params s)) (ease_trace e samples st)
  /\ params_in_domain (params (animateToParams targetF targetK startTime samples st)).
Proof.
  intros [HF HK] HtF HtK Hall. cbv zeta.
  assert (Htr : Forall (fun s => params_in_domain (params s))
                  (ease_trace (animateToParams_easing targetF targetK startTime st) samples st))
    by (apply ease_trace_in_domain; assumption).
  split; [ exact Htr | ].
  unfold animateToParams. rewrite ease_run_last.
  apply (last_Forall (fun s => params_in_domain (params s))); [ now split | exact Htr ].
Qed.

Lemma animateToParams_in_domain_witness :
  let samples := [0; 16; 500; 1000] in
  params_in_domain (params example_params)
  /\ params_in_domain (params (animateToParams 0.06 0.07 0 samples example_params)).
Proof.
  cbv zeta.
  assert (H0 : params_in_domain (params example_params))
    by (vm_compute; repeat split; discriminate).
  split; [ exact H0 | ].
  apply (animateToParams_in_domain 0.06 0.07 0 [0; 16; 500; 1000] example_params H0).
  - split; discriminate.
  - split; discriminate.
  - repeat constructor; discriminate.
Defined.

Lemma presets_in_domain (s : System) :
  Forall (fun p => F_domain (fst p) /\ K_domain (snd p)
                   /\ fst p <= 0.08 /\ snd p <= 0.08) (presets s).
Proof.
  destruct s; cbn [presets]; repeat constructor; cbn [fst snd]; discriminate.
Qed.

(** X13.  A preset button, pressed while the parameters are inside their
    domains: its preset exists for every button index below the length of
    the selected system's list, the eased transition keeps the parameters
    inside the domains, and once a sample is taken 1000 ms or more after the
    press the parameters are exactly the preset's [(f, k)], which lies in
    the plotted square [[0, 0.08]^2]. *)
Theorem preset_click_reaches_preset (i : nat) (startTime : Q) (samples : list Q)
    (st : TuringSimulation) :
  (i < length (presets (system (params st))))%nat ->
  params_in_domain (params st) ->
  Forall (fun now => startTime <= now) samples ->
  (exists now, In now samples /\ startTime + duration <= now) ->
  exists f k st',
    nth_error (presets (system (params st))) i = Some (f, k)
    /\ preset_click i startTime samples st = Some st'
    /\ params_in_domain (params st')
    /\ feedRate (params st') == f /\ killRate (params st') == k
    /\ f <= 0.08 /\ k <= 0.08.
Proof.
  intros Hi Hdom Hall Hex.
  destruct (nth_error (presets (system (params st))) i) as [[f k]|] eqn:E;
    [ | apply nth_error_None in E; lia ].
  exists f, k, (animateToParams f k startTime samples st).
  pose proof (presets_in_domain (system (params st))) as Hp.
  rewrite Forall_forall in Hp. apply nth_error_In in E as Hin.
  destruct (Hp (f, k) Hin) as (HF & HK & Hf8 & Hk8). cbn [fst snd] in *.
  split; [ reflexivity | split; [ | split; [ | split; [ | split ] ] ] ].
  - unfold preset_click. now rewrite E.
  - unfold animateToParams. destruct Hdom as [HF0 HK0].
    apply ease_run_in_domain; try assumption. now split.
  - apply (ease_run_complete (animateToParams_easing f k startTime st) samples st Hex).
  - apply (ease_run_complete (animateToParams_easing f k startTime st) samples st Hex).
  - split; assumption.
Qed.

Lemma preset_click_reaches_preset_witness :
  exists st',
    preset_click 3 0 [0; 400; 1000] example_params = Some st'
    /\ feedRate (params st') == 0.0180 /\ killRate (params st') == 0.0510.
Proof.
  assert (Hi : (3 < length (presets (system (params example_params))))%nat)
    by (vm_compute; lia).
  assert (Hd : params_in_domain (params example_params))
    by (vm_compute; repeat split; discriminate).
  assert (Hall : Forall (fun now => 0 <= now) [0; 400; 1000])
    by (repeat constructor; discriminate).
  assert (Hex : exists now, In now [0; 400; 1000] /\ 0 + duration <= now)
    by (exists 1000; split; [ cbn; tauto | discriminate ]).
  destruct (preset_click_reaches_preset 3 0 [0; 400; 1000] example_params Hi Hd Hall Hex)
    as (f & k & st' & Hn & Hc & _ & HF & HK & _).
  exists st'. vm_compute in Hn. injection Hn as <- <-.
  repeat split; assumption.
Defined.

(** ** The parameter-space plot *)

Lemma parameterSpace_target_in_square (rect : DOMRect) (e : MouseEvent) :
  0 < rect_width rect -> 0 < rect_height rect ->
  rect_left rect <= clientX e -> clientX e <= rect_left rect + rect_width rect ->
  rect_top rect <= clientY e -> clientY e <= rect_top rect + rect_height rect ->
  let '(f, k) := parameterSpace_target rect e in
  (0 <= f /\ f <= 0.08) /\ (0 <= k /\ k <= 0.08).
Proof.
  intros Hw Hh Hx0 Hx1 Hy0 Hy1. unfold parameterSpace_target. cbv zeta.
  assert (Hfx : 0 <= (clientX e - rect_left rect) / rect_width rect
                /\ (clientX e - rect_left rect) / rect_width rect <= 1).
  { split; [ apply Qle_shift_div_l | apply Qle_shift_div_r ]; lra. }
  assert (Hfy : 0 <= (clientY e - rect_top rect) / rect_height rect
                /\ (clientY e - rect_top rect) / rect_height rect <= 1).
  { split; [ apply Qle_shift_div_l | apply Qle_shift_div_r ]; lra. }
  set (u := (clientX e - rect_left rect) / rect_width rect) in *.
  set (v := (clientY e - rect_top rect) / rect_height rect) in *.
  repeat split; lra.
Qed.

(** X14.  Click and marker are inverse to each other.  After a click in the
    parameter-space plot and a completed transition (a sample 1000 ms or
    more after the click), the crosshair drawn by
    [updateParameterSpaceMarker] on a [width * height] canvas sits at the
    clicked point: at the same fractions of the canvas as the click was of
    the plot's rectangle.  A click inside the rectangle targets
    [[0, 0.08]^2], so from parameters inside their domains the transition
    never leaves them. *)
Theorem parameterSpace_click_marker (rect : DOMRect) (e : MouseEvent) (startTime : Q)
    (samples : list Q) (width height : Q) (st : TuringSimulation) :
  0 < rect_width rect -> 0 < rect_height rect ->
  (exists now, In now samples /\ startTime + duration <= now) ->
  let st' := parameterSpace_click rect e startTime samples st in
  let fx := (clientX e - rect_left rect) / rect_width rect in
  let fy := (clientY e - rect_top rect) / rect_height rect in
  (fst (parameterSpaceMarker width height st') == fx * width
   /\ snd (parameterSpaceMarker width height st') == fy * height)
  /\ (rect_left rect <= clientX e <= rect_left rect + rect_width rect ->
      rect_top rect <= clientY e <= rect_top rect + rect_height rect ->
      params_in_domain (params st) ->
      Forall (fun now => startTime <= now) samples ->
      params_in_domain (params st')).
Proof.
  intros Hw Hh Hex. cbv zeta.
  unfold parameterSpace_click.
  pose proof (parameterSpace_target_in_square rect e Hw Hh) as Hsq.
  destruct (parameterSpace_target rect e) as [f k] eqn:Et.
  assert (Ef : f = (clientX e - rect_left rect) / rect_width rect * 0.08
               /\ k = (1 - (clientY e - rect_top rect) / rect_height rect) * 0.08).
  { unfold parameterSpace_target in Et. cbv zeta in Et. now injection Et as <- <-. }
  destruct Ef as [Ef Ek].
  destruct (ease_run_complete (animateToParams_easing f k startTime st) samples st Hex)
    as [HF HK].
  cbn [ease_targetF ease_targetK animateToParams_easing] in HF, HK.
  split.
  - unfold parameterSpaceMarker, animateToParams. cbn [fst snd].
    rewrite HF, HK, Ef, Ek.
    set (u := (clientX e - rect_left rect) / rect_width rect).
    set (v := (clientY e - rect_top rect) / rect_height rect).
    split; field.
  - intros [Hx0 Hx1] [Hy0 Hy1] [HF0 HK0] Hall.
    destruct (Hsq Hx0 Hx1 Hy0 Hy1) as [[Hf0 Hf1] [Hk0 Hk1]].
    unfold animateToParams.
    apply ease_run_in_domain;
      cbn [animateToParams_easing ease_startF ease_targetF ease_startK ease_targetK
           ease_startTime].
    + now split.
    + exact HF0.
    + split; [ exact Hf0 | lra ].
    + exact HK0.
    + split; assumption.
    + exact Hall.
Qed.

Lemma parameterSpace_click_marker_witness :
  let rect := {| rect_left := 10; rect_top := 20; rect_width := 200; rect_height := 200 |} in
  let e := {| clientX := 60; clientY := 70 |} in
  let st' := parameterSpace_click rect e 0 [0; 500; 1000] example_params in
  0 < rect_width rect /\ 0 < rect_height rect
  /\ fst (parameterSpaceMarker 300 300 st') == 75
  /\ snd (parameterSpaceMarker 300 300 st') == 75.
Proof.
  cbv zeta.
  set (rect := {| rect_left := 10; rect_top := 20; rect_width := 200; rect_height := 200 |}).
  set (e := {| clientX := 60; clientY := 70 |}).
  assert (Hw : 0 < rect_width rect) by reflexivity.
  assert (Hh : 0 < rect_height rect) by reflexivity.
  assert (Hex : exists now, In now [0; 500; 1000] /\ 0 + duration <= now)
    by (exists 1000; split; [ cbn; tauto | discriminate ]).
  destruct (parameterSpace_click_marker rect e 0 [0; 500; 1000] 300 300 example_params
              Hw Hh Hex) as [[Hx Hy] _].
  split; [ exact Hw | split; [ exact Hh | split ] ].
  - rewrite Hx. reflexivity.
  - rewrite Hy. reflexivity.
Defined.





(** ** Journeys *)

Lemma clamp_noop (lo hi f : Q) : lo <= f -> f <= hi -> Qmax lo (Qmin hi f) == f.
Proof.
  intros H0 H1. rewrite Q.min_r by exact H1. now apply Q.max_r.
Qed.

(** X16.  The three shaped journeys never reach the clamp.  With [Math.sin]
    and [Math.cos] in [[-1, 1]], a tick of an active linear, circular or
    figure-8 journey advances the phase by [dt * speed * 0.001] and stores
    exactly the trajectory's point: the clamp changes nothing, because every
    point of the three trajectories lies in
    [0.02 <= F <= 0.06], [0.043 <= K <= 0.073]. *)
Theorem shaped_journeys_unclamped (Math_sin Math_cos : Q -> Q) (dt : Q)
    (st : TuringSimulation) :
  (forall x, -1 <= Math_sin x /\ Math_sin x <= 1) ->
  (forall x, -1 <= Math_cos x /\ Math_cos x <= 1) ->
  active (journey st) = true ->
  journey_type (journey st) = JLinear \/ journey_type (journey st) = JCircular
    \/ journey_type (journey st) = JFigure8 ->
  let t := time (journey st) + dt * speed (journey st) * 0.001 in
  let st' := updateJourney Math_sin Math_cos dt st in
  let F' := feedRate (params st') in
  let K' := killRate (params st') in
  time (journey st') = t
  /\ match journey_type (journey st) with
     | JLinear =>
         F' == 0.02 + (Math_sin (t * 0.5) + 1) / 2 * 0.04
         /\ K' == 0.045 + (Math_sin (t * 0.5) + 1) / 2 * 0.025
     | JCircular =>
         F' == 0.04 + Math_cos t * 0.015 /\ K' == 0.058 + Math_sin t * 0.015
     | JFigure8 =>
         F' == 0.04 + Math_sin t * 0.02 /\ K' == 0.058 + Math_sin (t * 2) * 0.01
     | _ => True
     end
  /\ (0.02 <= F' /\ F' <= 0.06) /\ (0.043 <= K' /\ K' <= 0.073).
Proof.
  intros Hsin Hcos Ha Ht. cbv zeta. unfold updateJourney. rewrite Ha. cbn [negb orb].
  destruct Ht as [Ht | [Ht | Ht]]; rewrite Ht;
    cbn [journey set_journey journey_type with_time time]; rewrite ?Ht;
    cbn [params set_params feedRate killRate with_feedRate with_killRate journey time].
  - set (t := time (journey st) + dt * speed (journey st) * 0.001).
    destruct (Hsin (t * 0.5)) as [Hs0 Hs1].
    assert (Hp : 0 <= (Math_sin (t * 0.5) + 1) / 2 /\ (Math_sin (t * 0.5) + 1) / 2 <= 1).
    { split; [ apply Qle_shift_div_l | apply Qle_shift_div_r ]; lra. }
    set (p := (Math_sin (t * 0.5) + 1) / 2) in *.
    rewrite !clamp_noop by lra.
    repeat split; try reflexivity; lra.
  - set (t := time (journey st) + dt * speed (journey st) * 0.001).
    destruct (Hsin t) as [Hs0 Hs1]. destruct (Hcos t) as [Hc0 Hc1].
    rewrite !clamp_noop by lra.
    repeat split; try reflexivity; lra.
  - set (t := time (journey st) + dt * speed (journey st) * 0.001).
    destruct (Hsin t) as [Hs0 Hs1]. destruct (Hsin (t * 2)) as [Hd0 Hd1].
    rewrite !clamp_noop by lra.
    repeat split; try reflexivity; lra.
Qed.

Lemma shaped_journeys_unclamped_witness :
  let zero := fun _ : Q => 0 in
  let one := fun _ : Q => 1 in
  let st := journeyType_change JCircular (startJourney_click example_seeded) in
  let st' := updateJourney zero one 16 st in
  active (journey st) = true
  /\ time (journey st') = 0 + 16 * 1.0 * 0.001
  /\ feedRate (params st') == 0.055 /\ killRate (params st') == 0.058.
Proof.
  cbv zeta.
  set (st := journeyType_change JCircular (startJourney_click example_seeded)).
  assert (Ha : active (journey st) = true) by reflexivity.
  destruct (shaped_journeys_unclamped (fun _ => 0) (fun _ => 1) 16 st)
    as (Ht & Hfk & _).
  - intros x. split; discriminate.
  - intros x. split; discriminate.
  - exact Ha.
  - right. left. reflexivity.
  - split; [ exact Ha | split; [ exact Ht | ] ].
    change (journey_type (journey st)) with JCircular in Hfk.
    destruct Hfk as [HF HK]. split.
    + rewrite HF. reflexivity.
    + rewrite HK. reflexivity.
Defined.

Lemma journey_reroll_spec (st : TuringSimulation) :
  (forall n, 0 <= random st n /\ random st n < 1) ->
  match target (journey st) with Some tg => target_in_box tg | None => True end ->
  let st' := journey_reroll st in
  (exists tg, target (journey st') = Some tg /\ target_in_box tg)
  /\ params st' = params st
  /\ active (journey st') = active (journey st)
  /\ journey_type (journey st') = journey_type (journey st)
  /\ time (journey st') = time (journey st)
  /\ (randomCalls st <= randomCalls st' <= randomCalls st + 3)%nat.
Proof.
  intros Hr Ht. cbv zeta.
  assert (Hroll : forall r1 r2,
            (0 <= r1 /\ r1 < 1) -> (0 <= r2 /\ r2 < 1) ->
            target_in_box (0.015 + r1 * 0.045, 0.045 + r2 * 0.03)).
  { intros r1 r2 [? ?] [? ?]. unfold target_in_box. cbn [fst snd]. repeat split; lra. }
  unfold journey_reroll, Math_random.
  cbn [random randomCalls set_randomCalls journey set_journey].
  destruct (targetF_falsy (journey st)) eqn:Ef.
  - cbn [journey set_journey target with_target params active journey_type time
         randomCalls set_randomCalls].
    split; [ eexists; split; [ reflexivity | apply Hroll; apply Hr ] | ].
    repeat split; lia.
  - destruct (Qlt_le_dec (random st (randomCalls st)) 0.01).
    + cbn [journey set_journey target with_target params active journey_type time
           randomCalls set_randomCalls random].
      split; [ eexists; split; [ reflexivity | apply Hroll; apply Hr ] | ].
      repeat split; lia.
    + cbn [journey set_journey target params active journey_type time
           randomCalls set_randomCalls].
      unfold targetF_falsy in Ef.
      destruct (target (journey st)) as [tg|]; [ | discriminate Ef ].
      split; [ exists tg; now split | ]. repeat split; lia.
Qed.

(** X17.  The random walk is a 2 % step towards a target inside the box.
    With [Math.random()] in [[0, 1)], the parameters inside their domains
    and the stored target (if any) inside the box
    [[0.015, 0.06] x [0.045, 0.075]], a tick of an active random journey
    leaves a target inside the box, moves each parameter by exactly one
    fiftieth of its distance to that target (the clamp changes nothing),
    keeps the parameters inside their domains, and calls [Math.random()] at
    most three times. *)
Theorem random_walk_tick (Math_sin Math_cos : Q -> Q) (dt : Q) (st : TuringSimulation) :
  (forall n, 0 <= random st n /\ random st n < 1) ->
  active (journey st) = true -> journey_type (journey st) = JRandom ->
  params_in_domain (params st) ->
  match target (journey st) with Some tg => target_in_box tg | None => True end ->
  let st' := updateJourney Math_sin Math_cos dt st in
  exists tf tk,
    target (journey st') = Some (tf, tk) /\ target_in_box (tf, tk)
    /\ tf - feedRate (params st') == 0.98 * (tf - feedRate (params st))
    /\ tk - killRate (params st') == 0.98 * (tk - killRate (params st))
    /\ params_in_domain (params st')
    /\ (randomCalls st <= randomCalls st' <= randomCalls st + 3)%nat.
Proof.
  intros Hr Ha Ht [[HF0 HF1] [HK0 HK1]] Htg. cbv zeta.
  unfold updateJourney. rewrite Ha, Ht. cbn [negb orb].
  cbn [journey set_journey journey_type with_time]. rewrite Ht.
  set (st1 := set_journey _ st).
  destruct (journey_reroll_spec st1) as ((tg & Htg' & Hbox) & Hp & _ & _ & _ & Hrc).
  { exact Hr. }
  { exact Htg. }
  rewrite Htg'. destruct tg as [tf tk].
  destruct Hbox as [[Hf0 Hf1] [Hk0 Hk1]]. cbn [fst snd] in *.
  rewrite Hp.
  change (params st1) with (params st).
  change (randomCalls st1) with (randomCalls st) in Hrc.
  exists tf, tk.
  cbn [journey set_params params feedRate killRate with_feedRate with_killRate randomCalls].
  rewrite Htg'.
  pose proof (clamp_noop 0 0.1 (feedRate (params st) + (tf - feedRate (params st)) * 0.02))
    as EF.
  pose proof (clamp_noop 0 0.08 (killRate (params st) + (tk - killRate (params st)) * 0.02))
    as EK.
  set (F' := Qmax 0 (Qmin 0.1 _)) in *. set (K' := Qmax 0 (Qmin 0.08 _)) in *.
  assert (EF' : F' == feedRate (params st) + (tf - feedRate (params st)) * 0.02)
    by (apply EF; lra).
  assert (EK' : K' == killRate (params st) + (tk - killRate (params st)) * 0.02)
    by (apply EK; lra).
  split; [ reflexivity | ].
  split; [ unfold target_in_box; cbn [fst snd]; repeat split; assumption | ].
  split; [ rewrite EF'; ring | split; [ rewrite EK'; ring | ] ].
  split; [ | exact Hrc ].
  unfold params_in_domain, F_domain, K_domain.
  cbn [params set_params feedRate killRate with_feedRate with_killRate].
  fold F' K'. rewrite EF', EK'. repeat split; lra.
Qed.

Lemma random_walk_tick_witness :
  let st := journeyType_change JRandom (startJourney_click example_params) in
  let st' := updateJourney (fun _ => 0) (fun _ => 0) 16 st in
  active (journey st) = true
  /\ exists tf tk, target (journey st') = Some (tf, tk)
                   /\ tf - feedRate (params st') == 0.98 * (tf - feedRate (params st)).
Proof.
  cbv zeta.
  set (st := journeyType_change JRandom (startJourney_click example_params)).
  assert (Ha : active (journey st) = true) by reflexivity.
  split; [ exact Ha | ].
  destruct (random_walk_tick (fun _ => 0) (fun _ => 0) 16 st)
    as (tf & tk & Htg & _ & HF & _).
  - intros n. split; [ discriminate | reflexivity ].
  - exact Ha.
  - reflexivity.
  - vm_compute. repeat split; discriminate.
  - exact I.
  - exists tf, tk. split; assumption.
Defined.

Lemma simulate_iteration_frame_fields st :
  journey (simulate_iteration st) = journey st
  /\ lastTime (simulate_iteration st) = lastTime st.
Proof.
  destruct st as [p v t j r res [t0 t1] c lt cv rnd rc].
  destruct c as [|c]; split; reflexivity.
Qed.

Lemma iter_simulate_iteration_frame_fields n st :
  journey (Nat.iter n simulate_iteration st) = journey st
  /\ lastTime (Nat.iter n simulate_iteration st) = lastTime st.
Proof.
  induction n as [|n [IHj IHl]]; [ now split | ].
  cbn [Nat.iter nat_rect].
  change (nat_rect _ st (fun _ => simulate_iteration) n)
    with (Nat.iter n simulate_iteration st).
  destruct (simulate_iteration_frame_fields (Nat.iter n simulate_iteration st)) as [Hj Hl].
  split; [ now rewrite Hj | now rewrite Hl ].
Qed.

Lemma simulate_frame_fields st :
  journey (simulate st) = journey st /\ lastTime (simulate st) = lastTime st.
Proof.
  unfold simulate. destruct (negb (isRunning st)); [ now split | ].
  apply iter_simulate_iteration_frame_fields.
Qed.

Lemma updateJourney_phase Math_sin Math_cos dt st :
  active (journey st) = true -> journey_type (journey st) <> JNone ->
  let st' := updateJourney Math_sin Math_cos dt st in
  time (journey st') = time (journey st) + dt * speed (journey st) * 0.001
  /\ speed (journey st') = speed (journey st)
  /\ active (journey st') = true
  /\ journey_type (journey st') = journey_type (journey st)
  /\ lastTime st' = lastTime st.
Proof.
  intros Ha Ht. cbv zeta. unfold updateJourney. rewrite Ha. cbn [negb orb].
  destruct (journey_type (journey st)) eqn:E; try congruence;
    cbn [journey set_journey journey_type with_time]; rewrite ?E;
    cbn [journey set_params set_journey time speed active journey_type with_time lastTime];
    try (repeat split; assumption).
  unfold journey_reroll, Math_random.
  cbn [random randomCalls set_randomCalls journey set_journey].
  destruct (targetF_falsy _); [ | destruct (Qlt_le_dec _ 0.01) ];
    cbn [journey set_journey set_randomCalls target with_target with_time];
    try (destruct (target (journey st)) as [[tf tk]|]);
    cbn [journey set_params set_journey time speed active journey_type with_time
         with_target lastTime set_randomCalls];
    repeat split; assumption.
Qed.

Lemma animate_phase Math_sin Math_cos now st :
  active (journey st) = true -> journey_type (journey st) <> JNone ->
  let st' := animate Math_sin Math_cos now st in
  time (journey st') = time (journey st) + (now - lastTime st) * speed (journey st) * 0.001
  /\ speed (journey st') = speed (journey st)
  /\ active (journey st') = true
  /\ journey_type (journey st') = journey_type (journey st)
  /\ lastTime st' = now.
Proof.
  intros Ha Ht. cbv zeta. unfold animate. cbv zeta.
  destruct (updateJourney_phase Math_sin Math_cos (now - lastTime st) (set_lastTime now st))
    as (H1 & H2 & H3 & H4 & H5); [ exact Ha | exact Ht | ].
  set (st1 := updateJourney _ _ _ _) in *.
  destruct (simulate_frame_fields st1) as [Hj Hl].
  unfold render. cbn [journey lastTime set_canvas]. rewrite Hj, Hl.
  cbn [journey lastTime set_lastTime] in *.
  repeat split; assumption.
Qed.

(** X18.  The phase of a journey follows the clock, not the frame rate.
    While a journey is active, after any number of animation frames its
    phase has advanced by [speed * 0.001] times the time from the last frame
    before them to the last of them, however that time was cut into frames;
    the speed, the type and the activity of the journey are unchanged and
    [lastTime] is the last clock reading. *)
Theorem journey_phase_follows_clock (Math_sin Math_cos : Q -> Q) (nows : list Q)
    (st : TuringSimulation) :
  active (journey st) = true -> journey_type (journey st) <> JNone ->
  let st' := frames Math_sin Math_cos nows st in
  time (journey st')
    == time (journey st)
       + (last nows (lastTime st) - lastTime st) * speed (journey st) * 0.001
  /\ lastTime st' = last nows (lastTime st)
  /\ speed (journey st') = speed (journey st)
  /\ active (journey st') = true
  /\ journey_type (journey st') = journey_type (journey st).
Proof.
  cbv zeta. unfold frames. revert st.
  induction nows as [|now nows IH]; intros st Ha Ht; cbn [fold_left].
  - cbn [last]. repeat split; try assumption. ring.
  - destruct (animate_phase Math_sin Math_cos now st Ha Ht) as (H1 & H2 & H3 & H4 & H5).
    destruct (IH (animate Math_sin Math_cos now st)) as (I1 & I2 & I3 & I4 & I5);
      [ exact H3 | congruence | ].
    assert (Hlast : last (now :: nows) (lastTime st) = last nows now).
    { destruct nows as [|n2 nows']; [ reflexivity | ].
      change (last (n2 :: nows') (lastTime st) = last (n2 :: nows') now).
      apply last_nonempty_indep. }
    rewrite Hlast. rewrite H5 in I1, I2. rewrite H1, H2 in I1.
    split; [ rewrite I1; ring | ].
    repeat split; congruence.
Qed.

Lemma journey_phase_follows_clock_witness :
  let st := journeyType_change JLinear (startJourney_click example_seeded) in
  let st' := frames (fun _ => 0) (fun _ => 0) [16; 40; 1000] st in
  active (journey st) = true /\ time (journey st') == 1.
Proof.
  cbv zeta.
  set (st := journeyType_change JLinear (startJourney_click example_seeded)).
  assert (Ha : active (journey st) = true) by reflexivity.
  split; [ exact Ha | ].
  destruct (journey_phase_follows_clock (fun _ => 0) (fun _ => 0) [16; 40; 1000] st Ha)
    as (Ht & _).
  - discriminate.
  - rewrite Ht. reflexivity.
Defined.

(** ** The stamp, texel by texel *)

Lemma nth_data_set_B (j k : nat) (data : texture) (d : vec4) :
  (k < length data)%nat ->
  nth k (data_set_B j data) d
  = if (j =? k)%nat then set_g (nth k data d) 1 else nth k data d.
Proof.
  intros Hk. destruct (Nat.eqb_spec j k) as [->|Hjk].
  - now apply nth_data_set_B_same.
  - apply nth_data_set_B_other. congruence.
Qed.

Lemma set_g_set_g (c : vec4) (v w : Q) : set_g (set_g c v) w = set_g c w.
Proof. reflexivity. Qed.

(** Steps that each set channel B to 1 on the texels they hit, folded over a
    list: the texels hit by some step are set, the others are kept. *)
Lemma fold_set_B {B : Type} (step : B -> texture -> texture) (h : B -> nat -> bool)
    (dflt : vec4) :
  (forall b d, length (step b d) = length d) ->
  (forall b d k, (k < length d)%nat ->
     nth k (step b d) dflt = if h b k then set_g (nth k d dflt) 1 else nth k d dflt) ->
  forall l d k, (k < length d)%nat ->
    nth k (fold_left (fun d b => step b d) l d) dflt
    = if existsb (fun b => h b k) l then set_g (nth k d dflt) 1 else nth k d dflt.
Proof.
  intros Hlen Hstep. induction l as [|b l IH]; intros d k Hk; cbn [fold_left existsb].
  - reflexivity.
  - rewrite IH by (now rewrite Hlen). rewrite (Hstep b d k Hk).
    destruct (h b k); cbn [orb]; [ | reflexivity ].
    rewrite set_g_set_g. now destruct (existsb _ l).
Qed.

Lemma fold_length {B : Type} (step : B -> texture -> texture) :
  (forall b d, length (step b d) = length d) ->
  forall l d, length (fold_left (fun d b => step b d) l d) = length d.
Proof.
  intros Hlen. induction l as [|b l IH]; intros d; cbn [fold_left]; [ reflexivity | ].
  now rewrite IH, Hlen.
Qed.

Lemma stamp_body_length res x y radius dy d dx :
  length (stamp_body res x y radius dy d dx) = length d.
Proof.
  unfold stamp_body. destruct (Qle_bool _ _); [ | reflexivity ].
  destruct (_ && _)%bool; [ apply data_set_B_length | reflexivity ].
Qed.

Lemma stamp_body_nth res x y radius dy d dx k :
  (k < length d)%nat ->
  nth k (stamp_body res x y radius dy d dx) texel_default
  = if stamp_hit res x y radius dy dx k then set_g (nth k d texel_default) 1
    else nth k d texel_default.
Proof.
  intros Hk. unfold stamp_body, stamp_hit. cbv zeta.
  destruct (Qle_bool _ _); cbn [andb]; [ | reflexivity ].
  destruct (_ && _ && _ && _)%bool; cbn [andb]; [ | reflexivity ].
  now apply nth_data_set_B.
Qed.

Lemma stamp_data_nth res x y radius d k :
  (k < length d)%nat ->
  nth k (stamp_data res x y radius d) texel_default
  = if stamp_hits res x y radius k then set_g (nth k d texel_default) 1
    else nth k d texel_default.
Proof.
  intros Hk. unfold stamp_data, stamp_hits.
  apply (fold_set_B
           (fun dy d => fold_left (stamp_body res x y radius dy) (stamp_offsets radius) d)
           (fun dy k => existsb (fun dx => stamp_hit res x y radius dy dx k)
                          (stamp_offsets radius))); [ | | exact Hk ].
  - intros dy d'.
    apply (fold_length (fun dx d => stamp_body res x y radius dy d dx)).
    intros dx d''. apply stamp_body_length.
  - intros dy d' k' Hk'.
    apply (fold_set_B (fun dx d => stamp_body res x y radius dy d dx)
             (fun dx k => stamp_hit res x y radius dy dx k)); [ | | exact Hk' ].
    + intros dx d''. apply stamp_body_length.
    + intros dx d'' k'' Hk''. now apply stamp_body_nth.
Qed.

Lemma stamp_data_idempotent res x y radius d :
  stamp_data res x y radius (stamp_data res x y radius d) = stamp_data res x y radius d.
Proof.
  apply (nth_ext _ _ texel_default texel_default).
  - now rewrite !stamp_data_length.
  - intros k Hk. rewrite !stamp_data_length in Hk.
    rewrite (stamp_data_nth res x y radius (stamp_data res x y radius d))
      by (now rewrite stamp_data_length).
    rewrite (stamp_data_nth res x y radius d) by exact Hk.
    destruct (stamp_hits res x y radius k); reflexivity.
Qed.

Lemma stamp_data_commute res x1 y1 r1 x2 y2 r2 d :
  stamp_data res x1 y1 r1 (stamp_data res x2 y2 r2 d)
  = stamp_data res x2 y2 r2 (stamp_data res x1 y1 r1 d).
Proof.
  apply (nth_ext _ _ texel_default texel_default).
  - now rewrite !stamp_data_length.
  - intros k Hk. rewrite !stamp_data_length in Hk.
    rewrite (stamp_data_nth res x1 y1 r1 (stamp_data res x2 y2 r2 d))
      by (now rewrite stamp_data_length).
    rewrite (stamp_data_nth res x2 y2 r2 (stamp_data res x1 y1 r1 d))
      by (now rewrite stamp_data_length).
    rewrite (stamp_data_nth res x1 y1 r1 d), (stamp_data_nth res x2 y2 r2 d) by exact Hk.
    destruct (stamp_hits res x1 y1 r1 k), (stamp_hits res x2 y2 r2 k); reflexivity.
Qed.

Lemma applyStamp_current mx my st :
  current_field (applyStamp mx my st)
  = stamp_data (resolution st) mx my (size (tool st)) (current_field st).
Proof.
  unfold current_field, applyStamp. rewrite currentTexture_write.
  apply texture_at_write_same.
Qed.

(** X19.  The stamp sets channel B to exactly 1.0 on the texels its loops hit
    and changes nothing else: a texel of the current buffer that some
    iteration [(dy, dx)] of the loops addresses gets B = 1, every other
    texel is kept as it is, and channel A and the two unused components of
    every texel are kept.  The selected chemical and the strength play no
    part: the stamp always writes chemical B at full strength. *)
Theorem stamp_texels (mx my : Q) (st : TuringSimulation) (k : nat) :
  (k < length (current_field st))%nat ->
  let c := nth k (current_field st) texel_default in
  let c' := nth k (current_field (applyStamp mx my st)) texel_default in
  let c'' c0 s0 :=
    nth k (current_field
             (applyStamp mx my
                (set_tool {| tool_type := tool_type (tool st); chemical := c0;
                             size := size (tool st); strength := s0 |} st)))
        texel_default in
  (if stamp_hits (resolution st) mx my (size (tool st)) k then cg c' = 1 else c' = c)
  /\ cr c' = cr c /\ cb c' = cb c /\ ca c' = ca c
  /\ (forall c0 s0, c'' c0 s0 = c').
Proof.
  intros Hk. cbv zeta. rewrite !applyStamp_current.
  rewrite stamp_data_nth by exact Hk.
  split; [ destruct (stamp_hits _ _ _ _ k); reflexivity | ].
  split; [ destruct (stamp_hits _ _ _ _ k); reflexivity | ].
  split; [ destruct (stamp_hits _ _ _ _ k); reflexivity | ].
  split; [ destruct (stamp_hits _ _ _ _ k); reflexivity | ].
  intros c0 s0. rewrite applyStamp_current.
  change (current_field (set_tool ?t st)) with (current_field st).
  cbn [tool set_tool size resolution].
  now rewrite stamp_data_nth by exact Hk.
Qed.

Lemma stamp_texels_witness :
  let st := example_tool Stamp ChemA 1 0 in
  let c' := nth 4 (current_field (applyStamp 1.5 1.5 st)) texel_default in
  (4 < length (current_field st))%nat /\ cg c' = 1.
Proof.
  cbv zeta.
  assert (H4 : (4 < length (current_field (example_tool Stamp ChemA 1 0)))%nat)
    by (vm_compute; lia).
  split; [ exact H4 | ].
  destruct (stamp_texels 1.5 1.5 (example_tool Stamp ChemA 1 0) 4 H4) as [H _].
  exact H.
Defined.

(** X20.  Stamping is idempotent and stamps commute: stamping the same place
    twice leaves the current buffer as stamping it once does, and two stamps
    at any two places leave the same current buffer in either order (with
    the same tool).  Neither ever flips [currentTexture]. *)
Theorem stamps_idempotent_commute (x1 y1 x2 y2 : Q) (st : TuringSimulation) :
  current_field (applyStamp x1 y1 (applyStamp x1 y1 st))
  = current_field (applyStamp x1 y1 st)
  /\ current_field (applyStamp x1 y1 (applyStamp x2 y2 st))
     = current_field (applyStamp x2 y2 (applyStamp x1 y1 st))
  /\ currentTexture (applyStamp x1 y1 (applyStamp x2 y2 st)) = currentTexture st.
Proof.
  assert (Hr : forall x y, resolution (applyStamp x y st) = resolution st)
    by (intros; unfold applyStamp; apply resolution_write_texture).
  assert (Ht : forall x y, tool (applyStamp x y st) = tool st)
    by (intros; unfold applyStamp; apply tool_write_texture).
  split; [ | split ].
  - rewrite !applyStamp_current, Hr, Ht.
    apply stamp_data_idempotent.
  - rewrite (applyStamp_current x1 y1 (applyStamp x2 y2 st)).
    rewrite (applyStamp_current x2 y2 (applyStamp x1 y1 st)).
    rewrite !Hr, !Ht, !applyStamp_current. apply stamp_data_commute.
  - unfold applyStamp at 1. rewrite currentTexture_write.
    unfold applyStamp. apply currentTexture_write.
Qed.

Lemma stamp_hits_inside (res : Z) (x y radius : Q) (cx cy : Z) :
  (0 <= cx < res)%Z -> (0 <= cy < res)%Z ->
  stamp_hits res x y radius (Z.to_nat (cy * res + cx)) = true ->
  0 <= radius
  /\ (x - radius - 1 < inject_Z cx /\ inject_Z cx <= x + radius)
  /\ (inject_Z res - y - radius - 1 < inject_Z cy
      /\ inject_Z cy <= inject_Z res - y + radius).
Proof.
  intros Hcx Hcy H. unfold stamp_hits in H.
  apply existsb_exists in H. destruct H as (dy & Hdy & H).
  apply existsb_exists in H. destruct H as (dx & Hdx & H).
  unfold stamp_hit in H. cbv zeta in H.
  apply andb_true_iff in H. destruct H as [_ H].
  apply andb_true_iff in H. destruct H as [Hr Hk].
  repeat (apply andb_true_iff in Hr; destruct Hr as [Hr ?]).
  apply Nat.eqb_eq in Hk.
  set (px := Qfloor (x + dx)) in *. set (py := Qfloor (inject_Z res - y + dy)) in *.
  assert (Hpx : (0 <= px < res)%Z) by lia.
  assert (Hpy : (0 <= py < res)%Z) by lia.
  assert (E : (py * res + px = cy * res + cx)%Z) by nia.
  assert (Epy : py = cy) by nia.
  assert (Epx : px = cx) by nia.
  destruct (stamp_offsets_bound radius dx Hdx) as [Hx0 Hx1].
  destruct (stamp_offsets_bound radius dy Hdy) as [Hy0 Hy1].
  pose proof (Qfloor_le (x + dx)) as Fx0. pose proof (Qlt_floor (x + dx)) as Fx1.
  pose proof (Qfloor_le (inject_Z res - y + dy)) as Fy0.
  pose proof (Qlt_floor (inject_Z res - y + dy)) as Fy1.
  fold px in Fx0, Fx1. fold py in Fy0, Fy1.
  rewrite inject_Z_plus in Fx1, Fy1. change (inject_Z 1) with 1 in Fx1, Fy1.
  rewrite Epx in Fx0, Fx1. rewrite Epy in Fy0, Fy1.
  repeat split; lra.
Qed.

(** X21.  The stamp does not wrap around the grid: a cell [(cx, cy)] whose
    column is not within [radius] (plus one cell of rounding) of the stamp
    position [x] in the plane, or whose row is not within that of
    [resolution - y], or any cell when the radius is negative, is left
    unchanged, however near the cell is across the edge of the torus. *)
Theorem stamp_does_not_wrap (mx my : Q) (st : TuringSimulation) (cx cy : Z) :
  (0 <= cx < resolution st)%Z -> (0 <= cy < resolution st)%Z ->
  length (current_field st) = Z.to_nat (resolution st * resolution st) ->
  let r := size (tool st) in
  let R := inject_Z (resolution st) in
  (r < 0
   \/ inject_Z cx <= mx - r - 1 \/ mx + r < inject_Z cx
   \/ inject_Z cy <= R - my - r - 1 \/ R - my + r < inject_Z cy) ->
  texel (resolution st) (current_field (applyStamp mx my st)) cx cy
  = texel (resolution st) (current_field st) cx cy.
Proof.
  intros Hcx Hcy Hlen. cbv zeta. intros Hout.
  unfold texel. rewrite (Z.mod_small cx), (Z.mod_small cy) by lia.
  rewrite applyStamp_current.
  rewrite stamp_data_nth by (rewrite Hlen; nia).
  destruct (stamp_hits _ _ _ _ _) eqn:E; [ | reflexivity ].
  apply stamp_hits_inside in E; [ | exact Hcx | exact Hcy ].
  destruct E as (H0 & [Hx0 Hx1] & [Hy0 Hy1]).
  destruct Hout as [H | [H | [H | [H | H]]]]; lra.
Qed.

Lemma stamp_does_not_wrap_witness :
  let st := set_tool {| tool_type := Stamp; chemical := ChemB; size := 1; strength := 1 |}
              (constructed 8 example_random 0) in
  (0 <= 7 < resolution st)%Z /\ (0 <= 4 < resolution st)%Z
  /\ texel (resolution st) (current_field (applyStamp 0.5 3.5 st)) 7 4
     = texel (resolution st) (current_field st) 7 4
  /\ cg (texel (resolution st) (current_field (applyStamp 0.5 3.5 st)) 0 4) = 1.
Proof.
  cbv zeta.
  set (st := set_tool _ _).
  assert (H7 : (0 <= 7 < resolution st)%Z) by in_grid.
  assert (H4 : (0 <= 4 < resolution st)%Z) by in_grid.
  split; [ exact H7 | split; [ exact H4 | split ] ].
  - apply (stamp_does_not_wrap 0.5 3.5 st 7 4 H7 H4); [ reflexivity | ].
    right. right. left. reflexivity.
  - vm_compute. reflexivity.
Defined.
